(** * marketcap_scraper: the scroll-and-extract pipeline

    A shallow embedding of [coin_marketcap_sync.py] (the sequential variant)
    and [coin_marketcap_async.py] (the concurrent variant): the scroll loop,
    the row extractor, the field normaliser, [insert_coin], [process_page],
    the page loop of the sequential [main] and the batches of the
    concurrent one under [asyncio.gather], followed by the properties of
    the specification that were checked against them.

    Conventions.
    - Python values that end up in a [coin_info] dictionary are [value]s;
      a dictionary is a [gmap string value]; [d.get(k)] is [dict_get].
    - The parsed document (the BeautifulSoup tree) is represented by what
      the selectors of the source return on it: see [Row] and [Soup].
    - An exception is a [Raise] result; [logging.error] appends to a log.
    - Text is ASCII. *)

From Stdlib Require Import ZArith String Ascii List Bool Lia.
From stdpp Require Import gmap strings list fin_maps.
Import ListNotations.

Local Open Scope string_scope.
Local Open Scope list_scope.

(** ** Python values, exceptions, results *)

Inductive value : Type :=
| VNone
| VStr (s : string)
| VInt (z : Z).

#[global] Instance value_eq_dec : EqDecision value.
Proof. solve_decision. Defined.

Inductive exn : Type :=
| IndexError        (* headers[idx] out of range *)
| ValueError        (* int() on text that is not an integer literal *)
| TimeoutError      (* page.goto timed out / navigation failed *)
| OperationalError  (* sqlite3 / aiosqlite failure in execute *)
| OverflowError.    (* an int outside 64 bits bound to a statement *)

Inductive result (A : Type) : Type :=
| Return (a : A)
| Raise (e : exn).
Arguments Return {A} a.
Arguments Raise {A} e.

(** [d.get(k)]: the stored value, [None] when the key is absent. *)
Definition dict_get (d : gmap string value) (k : string) : value :=
  match d !! k with
  | Some v => v
  | None => VNone
  end.

(** ** The built-in [int] on text

    Optional surrounding whitespace, an optional sign, then decimal digits
    in which single underscores may separate digits; more digits than
    [sys.int_max_str_digits] are refused.  Digits are the ASCII ones. *)

Definition is_space (a : ascii) : bool :=
  let n := nat_of_ascii a in
  ((9 <=? n) && (n <=? 13))%nat || (n =? 32)%nat.

Definition is_digit (a : ascii) : bool :=
  let n := nat_of_ascii a in ((48 <=? n) && (n <=? 57))%nat.

Definition digit_val (a : ascii) : Z := Z.of_nat (nat_of_ascii a) - 48.

Fixpoint lstrip (s : string) : string :=
  match s with
  | String a s' => if is_space a then lstrip s' else s
  | EmptyString => EmptyString
  end.

Fixpoint rstrip (s : string) : string :=
  match s with
  | String a s' =>
      match rstrip s' with
      | EmptyString => if is_space a then EmptyString else String a EmptyString
      | r => String a r
      end
  | EmptyString => EmptyString
  end.

Fixpoint parse_digits (s : string) (acc : Z) (after_digit : bool) : option Z :=
  match s with
  | EmptyString => if after_digit then Some acc else None
  | String a s' =>
      if is_digit a then parse_digits s' (10 * acc + digit_val a)%Z true
      else if (Ascii.eqb a "_" && after_digit)%bool then parse_digits s' acc false
      else None
  end.

Fixpoint digit_count (s : string) : nat :=
  match s with
  | EmptyString => 0%nat
  | String a s' => if is_digit a then S (digit_count s') else digit_count s'
  end.

(** The default of [sys.int_max_str_digits]. *)
Definition int_max_str_digits : nat := 4300.

Definition py_int (text : string) : result Z :=
  let body := rstrip (lstrip text) in
  let parsed :=
    match body with
    | String "-" s' => option_map Z.opp (parse_digits s' 0%Z false)
    | String "+" s' => parse_digits s' 0%Z false
    | _ => parse_digits body 0%Z false
    end in
  match parsed with
  | Some z =>
      if (int_max_str_digits <? digit_count body)%nat then Raise ValueError
      else Return z
  | None => Raise ValueError
  end.

(** ** The parsed document *)

(** An [<img>] element: [img.get('src')] is [None] without the attribute. *)
Record Img : Type := { img_src : option string }.

Definition img_get_src (i : Img) : value :=
  match img_src i with
  | Some s => VStr s
  | None => VNone
  end.

(** A data cell, [td[style*="end"]]: its [get_text(strip=True, separator=" | ")]
    and its [find('img')]. *)
Record Cell : Type := { cell_text : string; cell_img : option Img }.

(** A [tr] element, by the results of the selectors applied to it. *)
Record Row : Type := {
  rank_td : option string;      (* select_one('td[style*="start"]'), its text *)
  logo_img : option Img;        (* select_one('img[class*="coin-logo"]') *)
  name_p : option string;       (* select_one('p[class*="coin-item-name"]') *)
  symbol_p : option string;     (* select_one('p[class*="coin-item-symbol"]') *)
  cell_elements : list Cell     (* select('td[style*="end"]') *)
}.

(** The same cell with another text, and the same row with other cells. *)
Definition set_cell_text (c : Cell) (text : string) : Cell :=
  {| cell_text := text; cell_img := cell_img c |}.

Definition set_cells (row : Row) (cells : list Cell) : Row :=
  {| rank_td := rank_td row; logo_img := logo_img row; name_p := name_p row;
     symbol_p := symbol_p row; cell_elements := cells |}.

Record Soup : Type := {
  th_end : list string;         (* texts of select('th[style*="end"]') *)
  tr : list Row                 (* select('tr') *)
}.

(** ** Row extractor *)

Module Extractor.

(** State of the cell loop: the dictionary being filled and the error log. *)
Record st : Type := { coin_info : gmap string value; errors : list exn }.

Definition set_item (s : st) (k : string) (v : value) : st :=
  {| coin_info := <[k := v]> (coin_info s); errors := errors s |}.

Definition log_error (s : st) (e : exn) : st :=
  {| coin_info := coin_info s; errors := errors s ++ [e] |}.

(** The body of [for idx in range(len(cell_texts))], with its [try]/[except
    Exception]: both subscripts raise [IndexError] out of range. *)
Definition cell_body (headers : list string) (cells : list Cell) (s : st) (idx : nat) : st :=
  let cell_texts := map cell_text cells in
  match headers !! idx with
  | None => log_error s IndexError
  | Some header =>
      if (idx =? length cell_texts - 1)%nat then
        match cells !! idx with
        | None => log_error s IndexError
        | Some c =>
            match cell_img c with
            | Some img_tag => set_item s header (img_get_src img_tag)
            | None => s
            end
        end
      else
        match cell_texts !! idx with
        | None => log_error s IndexError
        | Some value =>
            if String.eqb value EmptyString then s else set_item s header (VStr value)
        end
  end.

Definition cell_loop (headers : list string) (cells : list Cell) (s : st) : st :=
  fold_left (cell_body headers cells) (seq 0 (length (map cell_text cells))) s.

Definition set_opt (k : string) (o : option value) (s : st) : st :=
  match o with
  | Some v => set_item s k v
  | None => s
  end.

(** The four leading selectors of the sequential variant: the rank is the
    text of the rank cell. *)
Definition lead_sync (row : Row) (s : st) : st :=
  let s := set_opt "rank" (option_map VStr (rank_td row)) s in
  let s := set_opt "logo" (option_map img_get_src (logo_img row)) s in
  let s := set_opt "name" (option_map VStr (name_p row)) s in
  set_opt "symbol" (option_map VStr (symbol_p row)) s.

(** The same in the concurrent variant, where the rank goes through [int]
    outside of any per-cell handler. *)
Definition lead_async (row : Row) (s : st) : result st :=
  let rest s :=
    let s := set_opt "logo" (option_map img_get_src (logo_img row)) s in
    let s := set_opt "name" (option_map VStr (name_p row)) s in
    set_opt "symbol" (option_map VStr (symbol_p row)) s in
  match rank_td row with
  | None => Return (rest s)
  | Some text =>
      match py_int text with
      | Return z => Return (rest (set_item s "rank" (VInt z)))
      | Raise e => Raise e
      end
  end.

(** The rank cell, if any, holds an integer literal. *)
Definition rank_converts (row : Row) : bool :=
  match rank_td row with
  | None => true
  | Some text =>
      match py_int text with
      | Return _ => true
      | Raise _ => false
      end
  end.

End Extractor.

(** ** Field normaliser *)

(** [normalized_coin]: a dictionary literal with twelve fixed keys. *)
Record coin : Type := {
  rank : value;
  logo : value;
  name : value;
  symbol : value;
  price : value;
  change_1h : value;
  change_24h : value;
  change_7d : value;
  market_cap : value;
  volume_24h : value;
  circulating_supply : value;
  last_7d : value
}.

#[global] Instance coin_eq_dec : EqDecision coin.
Proof. solve_decision. Defined.

Definition normalize (coin_info : gmap string value) : coin :=
  {| rank := dict_get coin_info "rank";
     logo := dict_get coin_info "logo";
     name := dict_get coin_info "name";
     symbol := dict_get coin_info "symbol";
     price := dict_get coin_info "Price";
     change_1h := dict_get coin_info "1h %";
     change_24h := dict_get coin_info "24h %";
     change_7d := dict_get coin_info "7d %";
     market_cap := dict_get coin_info "Market Cap";
     volume_24h := dict_get coin_info "Volume(24h)";
     circulating_supply := dict_get coin_info "Circulating Supply";
     last_7d := dict_get coin_info "Last 7 Days" |}.

(** The keys of [normalized_coin], the label each one is read from, and
    [coin.get(key)]. *)
Inductive field : Type :=
| Rank | Logo | Name | Symbol | Price | Change1h | Change24h | Change7d
| MarketCap | Volume24h | CirculatingSupply | Last7d.

Definition expected_label (f : field) : string :=
  match f with
  | Rank => "rank" | Logo => "logo" | Name => "name" | Symbol => "symbol"
  | Price => "Price" | Change1h => "1h %" | Change24h => "24h %"
  | Change7d => "7d %" | MarketCap => "Market Cap" | Volume24h => "Volume(24h)"
  | CirculatingSupply => "Circulating Supply" | Last7d => "Last 7 Days"
  end.

Definition coin_get (c : coin) (f : field) : value :=
  match f with
  | Rank => rank c | Logo => logo c | Name => name c | Symbol => symbol c
  | Price => price c | Change1h => change_1h c | Change24h => change_24h c
  | Change7d => change_7d c | MarketCap => market_cap c
  | Volume24h => volume_24h c | CirculatingSupply => circulating_supply c
  | Last7d => last_7d c
  end.

#[global] Instance field_eq_dec : EqDecision field.
Proof. solve_decision. Defined.

(** The twelve keys of a record. *)
Definition all_fields : list field :=
  [Rank; Logo; Name; Symbol; Price; Change1h; Change24h; Change7d;
   MarketCap; Volume24h; CirculatingSupply; Last7d].

(** The display-string fields. *)
Definition string_fields : list field :=
  [Price; Change1h; Change24h; Change7d; MarketCap; Volume24h; CirculatingSupply].

(** ** Scraping a parsed page *)

Module Scraper.
Import Extractor.

Inductive log_entry : Type :=
| CellError (e : exn)   (* logging.error(f"ERROR: {e}") *)
| PageError (e : exn).  (* logging.error(f'ERROR: page {page_index} error is: {e}') *)

(** [if cell_texts:] followed by the cell loop. *)
Definition cells_of (headers : list string) (row : Row) (s : st) : st :=
  match map cell_text (cell_elements row) with
  | [] => s
  | _ :: _ => cell_loop headers (cell_elements row) s
  end.

Definition fresh : st := {| coin_info := ∅; errors := [] |}.

(** The RawRow of a row element, with the errors logged on the way. *)
Definition raw_row_sync (headers : list string) (row : Row) : st :=
  cells_of headers row (lead_sync row fresh).

Definition raw_row_async (headers : list string) (row : Row) : result st :=
  match lead_async row fresh with
  | Return s => Return (cells_of headers row s)
  | Raise e => Raise e
  end.

(** [if coin_info:] and the normalisation. *)
Definition emit (coin_info : gmap string value) : list coin :=
  if decide (coin_info = ∅) then [] else [normalize coin_info].

(** Sequential variant: the [for row in row_elements] loop; returns the list
    [coins] and the log. *)
Fixpoint rows_sync (headers : list string) (rows : list Row) : list coin * list log_entry :=
  match rows with
  | [] => ([], [])
  | row :: rest =>
      let s := raw_row_sync headers row in
      let '(coins, log) := rows_sync headers rest in
      (emit (coin_info s) ++ coins, map CellError (errors s) ++ log)
  end.

Definition scrape_sync (soup : Soup) : list coin * list log_entry :=
  rows_sync (th_end soup) (tr soup).

(** Concurrent variant: the generator body inside [try]/[except Exception];
    returns the coins yielded until exhaustion and the log. *)
Fixpoint rows_async (headers : list string) (rows : list Row) : list coin * list log_entry :=
  match rows with
  | [] => ([], [])
  | row :: rest =>
      match raw_row_async headers row with
      | Raise e => ([], [PageError e])
      | Return s =>
          let '(coins, log) := rows_async headers rest in
          (emit (coin_info s) ++ coins, map CellError (errors s) ++ log)
      end
  end.

Definition scrape_async (soup : Soup) : list coin * list log_entry :=
  rows_async (th_end soup) (tr soup).

End Scraper.

(** ** Scroll loop *)

Module Scroll.

Definition max_count_sync : nat := 10.
Definition max_count_async : nat := 20.

(** [evaluate k] is what the [k]-th call of
    [page.evaluate("document.body.scrollHeight")] returns; [calls] counts
    the calls made so far.  The result is the number of calls made when the
    loop exits; [None] when [fuel] iterations were not enough. *)
Fixpoint scroll_loop (fuel : nat) (evaluate : nat -> Z) (max_count count calls : nat)
  : option nat :=
  match fuel with
  | O => None
  | S fuel' =>
      if (count <? max_count)%nat then
        let old_height := evaluate calls in
        let new_height := evaluate (S calls) in
        if (old_height =? new_height)%Z
        then scroll_loop fuel' evaluate max_count (count + 1) (calls + 2)
        else scroll_loop fuel' evaluate max_count 0 (calls + 2)
      else Some calls
  end.

(** A page whose height moves only while the keys are pressed and the pause
    elapses: [heights i] is the height after [i] rounds, so round [i] reads
    [heights i] and then [heights (i + 1)]. *)
Definition checks (heights : nat -> Z) : nat -> Z :=
  fun k => heights (Nat.div2 (S k)).

(** The heights of a list, the last one repeated for ever. *)
Definition of_list (l : list Z) : nat -> Z :=
  fun i => nth i l (List.last l 0%Z).

(** Round [i] saw no change. *)
Definition stalled (evaluate : nat -> Z) (i : nat) : bool :=
  (evaluate (2 * i)%nat =? evaluate (S (2 * i)))%Z.

(** The update of the counter as the specification words it: zero on an
    increase, one more otherwise. *)
Definition spec_count (count : nat) (old_height new_height : Z) : nat :=
  if (old_height <? new_height)%Z then 0%nat else (count + 1)%nat.

(** The update of the counter in the loop body. *)
Definition next_count (count : nat) (old_height new_height : Z) : nat :=
  if (old_height =? new_height)%Z then (count + 1)%nat else 0%nat.

(** The counter after [n] rounds of the loop body, the exit test left out. *)
Fixpoint count_after (evaluate : nat -> Z) (n : nat) : nat :=
  match n with
  | O => 0%nat
  | S n' =>
      next_count (count_after evaluate n') (evaluate (2 * n')%nat) (evaluate (S (2 * n')))
  end.

(** The loop with the counter updated as the specification words it. *)
Fixpoint spec_scroll_loop (fuel : nat) (evaluate : nat -> Z) (max_count count calls : nat)
  : option nat :=
  match fuel with
  | O => None
  | S fuel' =>
      if (count <? max_count)%nat then
        spec_scroll_loop fuel' evaluate max_count
          (spec_count count (evaluate calls) (evaluate (S calls))) (calls + 2)
      else Some calls
  end.

End Scroll.

(** ** Storage *)

Module Sqlite.

(** The columns that [CREATE TABLE IF NOT EXISTS coins (...)] declares
    [UNIQUE] or [PRIMARY KEY]: none, in either variant. *)
Definition coins_unique : list field := [].

(** The database file: the committed rows of [coins] in insertion order, and
    the outcomes of the coming [execute] calls ([true]: the call raises;
    an exhausted list: no further failure). *)
Record storage : Type := { table : list coin; faults : list bool }.

(** A connection: the file and the rows as the open transaction sees them. *)
Record connection : Type := { store : storage; pending : option (list coin) }.

Definition connect (file : storage) : connection :=
  {| store := file; pending := None |}.

Definition view (db : connection) : list coin :=
  match pending db with
  | Some rows => rows
  | None => table (store db)
  end.

(** [new] violates a uniqueness constraint against the stored row [old]:
    some unique column holds the same non-NULL value in both. *)
Definition conflicts (unique : list field) (new old : coin) : bool :=
  existsb (fun f =>
             match coin_get new f with
             | VNone => false
             | v => bool_decide (coin_get old f = v)
             end) unique.

(** [INSERT OR REPLACE]: the rows that conflict are deleted, the new row is
    added. *)
Definition insert_or_replace (unique : list field) (rows : list coin) (new : coin)
  : list coin :=
  List.filter (fun old => negb (conflicts unique new old)) rows ++ [new].

Definition with_faults (db : connection) (tape : list bool) : connection :=
  {| store := {| table := table (store db); faults := tape |};
     pending := pending db |}.

(** A parameter can be bound unless it is an int outside signed 64 bits. *)
Definition int64_min : Z := (-9223372036854775808)%Z.
Definition int64_max : Z := 9223372036854775807%Z.

Definition bindable (v : value) : bool :=
  match v with
  | VInt z => ((int64_min <=? z) && (z <=? int64_max))%Z
  | VStr _ | VNone => true
  end.

Definition storable (c : coin) : bool :=
  forallb (fun f => bindable (coin_get c f)) all_fields.

(** [db.execute('INSERT OR REPLACE ...', params)]: binding a parameter that
    is out of range raises [OverflowError] before the statement runs;
    otherwise the statement runs, or fails as the file has it in store. *)
Definition execute (db : connection) (new : coin) : connection * option exn :=
  let run db :=
    {| store := store db;
       pending := Some (insert_or_replace coins_unique (view db) new) |} in
  if storable new then
    match faults (store db) with
    | true :: tape => (with_faults db tape, Some OperationalError)
    | false :: tape => (run (with_faults db tape), None)
    | [] => (run db, None)
    end
  else (db, Some OverflowError).

Definition commit (db : connection) : connection :=
  {| store := {| table := view db; faults := faults (store db) |};
     pending := None |}.

(** Closing drops what was not committed. *)
Definition close (db : connection) : storage := store db.

(** [CREATE TABLE IF NOT EXISTS] leaves the rows of an existing table. *)
Definition create_db (file : storage) : storage := file.

(** [insert_coin]: the tuple bound to the statement is [coin.get] of the
    twelve keys, in the order of the record. *)
Definition insert_coin (db : connection) (c : coin) : connection * option exn :=
  match execute db c with
  | (db', None) => (commit db', None)
  | (db', Some e) => (db', Some e)
  end.

(** [for coin in coins: insert_coin(db, coin)], left at the first exception. *)
Fixpoint insert_all (db : connection) (coins : list coin) : connection * option exn :=
  match coins with
  | [] => (db, None)
  | c :: rest =>
      match insert_coin db c with
      | (db', None) => insert_all db' rest
      | (db', Some e) => (db', Some e)
      end
  end.

(** Rows of a table whose rank column holds [r]. *)
Definition rows_of_rank (r : value) (rows : list coin) : list coin :=
  List.filter (fun c => bool_decide (rank c = r)) rows.

End Sqlite.

(** ** The pipeline *)

Module Pipeline.
Import Sqlite.

(** What the browser does for one URL: the outcome of [page.goto], the heights
    read by the scroll loop, and the parsed [page.content()]. *)
Record Page : Type := {
  goto : result unit;
  heights : nat -> Z;
  content : Soup
}.

Definition coinmarketcap_sync (fuel : nat) (p : Page) : option (result (list coin)) :=
  match goto p with
  | Raise e => Some (Raise e)
  | Return _ =>
      match Scroll.scroll_loop fuel (heights p) Scroll.max_count_sync 0 0 with
      | None => None
      | Some _ => Some (Return (fst (Scraper.scrape_sync (content p))))
      end
  end.

(** The generator of the concurrent variant, by the coins it yields. *)
Definition coinmarketcap_async (fuel : nat) (p : Page) : option (result (list coin)) :=
  match goto p with
  | Raise e => Some (Raise e)
  | Return _ =>
      match Scroll.scroll_loop fuel (heights p) Scroll.max_count_async 0 0 with
      | None => None
      | Some _ => Some (Return (fst (Scraper.scrape_async (content p))))
      end
  end.

(** Sequential [process_page]: its own connection, closed in [finally];
    the exception, if any, leaves the function. *)
Definition process_page_sync (fuel : nat) (file : storage) (p : Page)
  : option (storage * option exn) :=
  let db := connect file in
  match coinmarketcap_sync fuel p with
  | None => None
  | Some (Raise e) => Some (close db, Some e)
  | Some (Return []) => Some (close db, None)
  | Some (Return coins) =>
      let '(db', r) := insert_all db coins in Some (close db', r)
  end.

(** Concurrent [process_page]: each coin is inserted as it is yielded, on
    the connection it is given. *)
Definition process_page_async (fuel : nat) (db : connection) (p : Page)
  : option (connection * option exn) :=
  match coinmarketcap_async fuel p with
  | None => None
  | Some (Raise e) => Some (db, Some e)
  | Some (Return coins) => Some (insert_all db coins)
  end.

(** The page loop of the sequential [main]. *)
Fixpoint page_loop (fuel : nat) (file : storage) (urls : list Page)
  : option (storage * option exn) :=
  match urls with
  | [] => Some (file, None)
  | url :: rest =>
      match process_page_sync fuel file url with
      | None => None
      | Some (file', Some e) => Some (file', Some e)
      | Some (file', None) => page_loop fuel file' rest
      end
  end.

Definition main_sync (fuel : nat) (file : storage) (urls : list Page)
  : option (storage * option exn) :=
  page_loop fuel (create_db file) urls.

End Pipeline.

(** ** The global connection of the concurrent variant *)

Module GlobalDb.
Import Sqlite.

(** The database file [DB_NAME] and the module-level variable [db]; while a
    connection is open the file is the one it holds. *)
Record state : Type := { db_file : storage; db : option connection }.

Definition open_db (g : state) : connection * state :=
  match db g with
  | None =>
      let c := connect (db_file g) in
      (c, {| db_file := db_file g; db := Some c |})
  | Some c => (c, g)
  end.

Definition close_db (g : state) : state :=
  match db g with
  | Some c => {| db_file := close c; db := None |}
  | None => g
  end.

End GlobalDb.

(** ** The batches of the concurrent [main] *)

Module Batch.

(** [range(0, n, 2)]. *)
Definition range_by_two (n : nat) : list nat :=
  map (fun k => 2 * k)%nat (seq 0 (Nat.div2 (S n))).

(** [enumerate(l)]. *)
Definition enumerate {A : Type} (l : list A) : list (nat * A) :=
  combine (seq 0 (length l)) l.

(** For each [batch_index], the arguments [(batch_index + j, url)] of the
    tasks made from [urls[batch_index:batch_index + 2]]. *)
Definition batch_tasks {A : Type} (urls : list A) : list (list (nat * A)) :=
  map (fun batch_index =>
         map (fun '(j, url) => (batch_index + j, url)%nat)
             (enumerate (take 2 (drop batch_index urls))))
      (range_by_two (length urls)).

End Batch.

(** ** The tasks of a batch under [asyncio.gather] *)

Module Asyncio.
Import Sqlite Pipeline GlobalDb Batch.

(** What a task does between two suspensions: an [await] that leaves the
    storage alone, the [execute] or the [commit] of [insert_coin], or an
    exception that leaves the task. *)
Inductive step : Type :=
| Await
| Exec (c : coin)
| Commit
| Throw (e : exn).

Definition inserts (coins : list coin) : list step :=
  flat_map (fun c => [Exec c; Commit]) coins.

(** The steps of [process_page(db, url, i)], one per [await] of the source:
    four to open the browser, context and page, [page.goto], thirteen per
    round of the scroll loop, three for the content and the closing, then
    the inserts of the coins as they are yielded. *)
Definition task (fuel : nat) (p : Page) : option (list step) :=
  match goto p with
  | Raise e => Some (replicate 4 Await ++ [Throw e])
  | Return _ =>
      match Scroll.scroll_loop fuel (heights p) Scroll.max_count_async 0 0 with
      | None => None
      | Some calls =>
          Some (replicate 5 Await
                  ++ replicate (13 * Nat.div2 calls) Await
                  ++ replicate 3 Await
                  ++ inserts (fst (Scraper.scrape_async (content p))))
      end
  end.



(** A task run to its end without interruption. *)
Fixpoint drain (steps : list step) (db : connection) : connection * option exn :=
  match steps with
  | [] => (db, None)
  | Await :: rest => drain rest db
  | Exec c :: rest =>
      match execute db c with
      | (db', None) => drain rest db'
      | (db', Some e) => (db', Some e)
      end
  | Commit :: rest => drain rest (commit db)
  | Throw e :: _ => (db, Some e)
  end.





(** The state of a task that inserts [coins] over the rows [rows], at some
    suspension: [k] coins are committed, and the next one is either still
    to be executed or executed and not yet committed. *)
Definition inserting (rows : list coin) (coins : list coin) (steps : list step)
  (db : connection) : Prop :=
  faults (store db) = []
  /\ exists k, k <= length coins
       /\ table (store db) = rows ++ take k coins
       /\ ((exists n, steps = replicate n Await ++ inserts (drop k coins)
                       /\ pending db = None)
           \/ (exists c, coins !! k = Some c
                         /\ steps = Commit :: inserts (drop (S k) coins)
                         /\ pending db = Some (rows ++ take k coins ++ [c]))).

End Asyncio.

(** The data cell at [idx] stores an entry: it has a header label and,
    before the last position, a text, at the last position an image. *)
Definition stores_at (headers : list string) (cells : list Cell) (idx : nat) : Prop :=
  exists h c, headers !! idx = Some h /\ cells !! idx = Some c
    /\ if (idx =? length cells - 1)%nat
       then cell_img c <> None
       else cell_text c <> EmptyString.

(** What a data cell that stands under a label contributes to the record. *)
Definition cell_value (cells : list Cell) (idx : nat) (c : Cell) : value :=
  if (idx =? length cells - 1)%nat then
    match cell_img c with
    | Some img => img_get_src img
    | None => VNone
    end
  else if String.eqb (cell_text c) EmptyString then VNone
  else VStr (cell_text c).

(** Two records differ at most in their rank. *)
Definition same_but_rank (a b : coin) : Prop :=
  forall f, f <> Rank -> coin_get a f = coin_get b f.

(** ** Sample inputs *)

Module Sample.
Import Sqlite Pipeline.

Definition coin_of (r : Z) (p : string) : coin :=
  {| rank := VInt r; logo := VNone; name := VStr "Bitcoin"; symbol := VStr "BTC";
     price := VStr p; change_1h := VNone; change_24h := VNone; change_7d := VNone;
     market_cap := VNone; volume_24h := VNone; circulating_supply := VNone;
     last_7d := VNone |}.

Definition text_cell (text : string) : Cell :=
  {| cell_text := text; cell_img := None |}.

Definition img_cell (text src : string) : Cell :=
  {| cell_text := text; cell_img := Some {| img_src := Some src |} |}.

Definition cells_row (cells : list Cell) : Row :=
  {| rank_td := None; logo_img := None; name_p := None; symbol_p := None;
     cell_elements := cells |}.

Definition ranked_row (rank_text : string) (cells : list Cell) : Row :=
  {| rank_td := Some rank_text; logo_img := None; name_p := None; symbol_p := None;
     cell_elements := cells |}.

(** The row of the specification's example: texts "$1.23", "+0.5%" and the
    empty text, with an image "chart.png" in the last cell. *)
Definition example_headers : list string := ["Price"; "1h %"; "7d %"].

Definition example_row : Row :=
  cells_row [text_cell "$1.23"; text_cell "+0.5%"; img_cell EmptyString "chart.png"].

(** A page whose first row has a rank cell that is not a number. *)
Definition unranked_soup : Soup :=
  {| th_end := ["Price"; "Last 7 Days"];
     tr := [ranked_row "N/A" [text_cell "$5"; img_cell EmptyString "a.svg"];
            ranked_row "2" [text_cell "$7"; img_cell EmptyString "b.svg"]] |}.

(** A row with a single data cell, under "Price", whose image has an empty
    [src]. *)
Definition empty_src_row : Row := ranked_row "1" [img_cell EmptyString EmptyString].

(** A row with more data cells than the page has headers. *)
Definition wide_row : Row :=
  ranked_row "3" [text_cell "$9"; text_cell "+1%"; img_cell EmptyString "c.svg"].

(** Pages: one whose height never moves, one whose navigation times out. *)
Definition still_page (soup : Soup) : Page :=
  {| goto := Return tt; heights := fun _ => 1000%Z; content := soup |}.


Definition listing (rows : list Row) : Soup :=
  {| th_end := ["Price"; "Last 7 Days"]; tr := rows |}.

Definition page_one : Soup :=
  listing [ranked_row "1" [text_cell "$5"; img_cell EmptyString "a.svg"];
           ranked_row "2" [text_cell "$7"; img_cell EmptyString "b.svg"]].

Definition page_two : Soup :=
  listing [ranked_row "101" [text_cell "$0.5"; img_cell EmptyString "c.svg"]].

(** A listing whose second rank does not fit in 64 bits. *)
Definition page_huge : Soup :=
  listing [ranked_row "1" [text_cell "$5"; img_cell EmptyString "a.svg"];
           ranked_row "9223372036854775808" [text_cell "$7"; img_cell EmptyString "b.svg"];
           ranked_row "3" [text_cell "$9"; img_cell EmptyString "c.svg"]].

Definition empty_file : storage := {| table := []; faults := [] |}.

(** A page that is higher at every reading. *)
Definition growing_page (soup : Soup) : Page :=
  {| goto := Return tt; heights := Z.of_nat; content := soup |}.

End Sample.

(** * Properties *)

Import Extractor Scraper Scroll Sqlite Pipeline Sample.

(** ** Record sink *)

Lemma insert_or_replace_coins (rows : list coin) (new : coin) :
  insert_or_replace coins_unique rows new = rows ++ [new].
Proof.
  unfold insert_or_replace, coins_unique, conflicts. simpl.
  f_equal. induction rows as [|r rows IH]; simpl; [reflexivity|].
  now rewrite IH.
Qed.

(** Without a failure, [insert_coin] appends the record to the committed
    rows and leaves no open transaction. *)
Lemma insert_coin_ok (db : connection) (c : coin) :
  faults (store db) = [] -> storable c = true ->
  insert_coin db c =
    ({| store := {| table := view db ++ [c]; faults := [] |}; pending := None |}, None).
Proof.
  intros Hf Hc. unfold insert_coin, execute. rewrite Hc, Hf.
  unfold commit, view. simpl. rewrite Hf.
  now rewrite insert_or_replace_coins.
Qed.

Lemma insert_all_ok (coins : list coin) (db : connection) :
  faults (store db) = [] -> pending db = None ->
  forallb storable coins = true ->
  insert_all db coins =
    ({| store := {| table := table (store db) ++ coins; faults := [] |};
        pending := None |}, None).
Proof.
  revert db. induction coins as [|c coins IH]; intros db Hf Hp Hc; simpl.
  - rewrite app_nil_r. destruct db as [[t f] p]; simpl in *. now subst.
  - simpl in Hc. apply andb_prop in Hc as [Hc Hcs].
    rewrite insert_coin_ok by assumption. rewrite IH by (reflexivity || assumption).
    simpl. unfold view. rewrite Hp. now rewrite <- app_assoc.
Qed.

(** A coin that cannot be bound is not stored: [insert_coin] raises and
    leaves the connection as it was. *)
Lemma insert_coin_overflow (db : connection) (c : coin) :
  storable c = false -> insert_coin db c = (db, Some OverflowError).
Proof. intros Hc. unfold insert_coin, execute. now rewrite Hc. Qed.

Lemma insert_all_overflow (before after : list coin) (c : coin) (db : connection) :
  faults (store db) = [] -> pending db = None ->
  forallb storable before = true -> storable c = false ->
  insert_all db (before ++ c :: after) =
    ({| store := {| table := table (store db) ++ before; faults := [] |};
        pending := None |}, Some OverflowError).
Proof.
  revert db. induction before as [|b before IH]; intros db Hf Hp Hb Hc; simpl.
  - rewrite insert_coin_overflow by assumption. rewrite app_nil_r.
    destruct db as [[t f] p]; simpl in *. now subst.
  - simpl in Hb. apply andb_prop in Hb as [Hb Hbs].
    rewrite insert_coin_ok by assumption. rewrite IH by (reflexivity || assumption).
    simpl. unfold view. rewrite Hp. now rewrite <- app_assoc.
Qed.

Lemma replaced_rows_gone (v : value) (rows : list coin) :
  List.filter (fun c => bool_decide (rank c = v))
    (List.filter (fun old => negb (bool_decide (rank old = v) || false)) rows) = [].
Proof.
  induction rows as [|old rows IH]; simpl; [reflexivity|].
  destruct (decide (rank old = v)) as [Heq|Hne].
  - rewrite (bool_decide_eq_true_2 _ Heq). simpl. exact IH.
  - rewrite (bool_decide_eq_false_2 _ Hne). simpl.
    rewrite (bool_decide_eq_false_2 _ Hne). exact IH.
Qed.

(** Had [rank] been declared unique, the second insert would have replaced
    the first: the statement does replace on a keyed table. *)
Lemma insert_or_replace_keyed (rows : list coin) (new : coin) :
  rank new <> VNone ->
  rows_of_rank (rank new) (insert_or_replace [Rank] rows new) = [new].
Proof.
  intros Hnew. unfold rows_of_rank, insert_or_replace.
  rewrite List.filter_app. simpl. rewrite bool_decide_eq_true_2 by reflexivity.
  unfold conflicts. simpl.
  destruct (rank new) as [|s|z]; [contradiction| |];
    now rewrite replaced_rows_gone.
Qed.

(** C1. Inserting rank 1 twice with different prices should leave one row
    for rank 1, holding the latest price.  On the [coins] table of the
    source, which declares no key, both rows are kept: the committed table
    holds the old and the new record, in that order. *)
Theorem C1_insert_twice_keeps_both_rows :
  let first := coin_of 1 "$100.00" in
  let second := coin_of 1 "$101.50" in
  let db := fst (insert_all (connect {| table := []; faults := [] |}) [first; second]) in
  table (close db) = [first; second]
  /\ rows_of_rank (VInt 1) (table (close db)) = [first; second]
  /\ length (rows_of_rank (VInt 1) (table (close db))) = 2%nat.
Proof. vm_compute. repeat split. Qed.

(** ** Field normaliser *)

(** C5. The normaliser is a total function, and a canonical field whose
    expected label is absent from the RawRow is null in the record. *)
Theorem C5_normalize_absent_label_is_null
  (raw : gmap string value) (f : field)
  (Habsent : raw !! expected_label f = None) :
  coin_get (normalize raw) f = VNone.
Proof.
  destruct f; simpl in *; unfold dict_get; now rewrite Habsent.
Qed.

(** On a RawRow that holds a price only, the one-hour change is null. *)
Lemma C5_normalize_absent_label_is_null_witness :
  let raw : gmap string value := {[ "Price" := VStr "$1.23" ]} in
  raw !! expected_label Change1h = None
  /\ coin_get (normalize raw) Change1h = VNone.
Proof.
  split; [reflexivity|].
  apply (C5_normalize_absent_label_is_null {[ "Price" := VStr "$1.23" ]} Change1h).
  reflexivity.
Defined.

(** ** Scroll convergence detector *)

Section ScrollLoop.

Variable ev : nat -> Z.
Variable m : nat.

Lemma scroll_loop_step (fuel count calls : nat) :
  scroll_loop (S fuel) ev m count calls =
    if (count <? m)%nat
    then scroll_loop fuel ev m (next_count count (ev calls) (ev (S calls))) (calls + 2)
    else Some calls.
Proof.
  simpl. unfold next_count.
  destruct (count <? m)%nat; [|reflexivity].
  destruct (ev calls =? ev (S calls))%Z; reflexivity.
Qed.

(** The state of the loop after [i] rounds is [count_after ev i], with
    [2 * i] heights read. *)
Lemma scroll_loop_round (fuel i : nat) :
  scroll_loop (S fuel) ev m (count_after ev i) (2 * i) =
    if (count_after ev i <? m)%nat
    then scroll_loop fuel ev m (count_after ev (S i)) (2 * S i)
    else Some (2 * i)%nat.
Proof.
  rewrite scroll_loop_step.
  replace (2 * i + 2)%nat with (2 * S i)%nat by lia.
  reflexivity.
Qed.

Lemma scroll_loop_exit (n fuel : nat) :
  forall i, i <= n ->
    (forall k, i <= k < n -> count_after ev k < m) ->
    m <= count_after ev n ->
    n - i < fuel ->
    scroll_loop fuel ev m (count_after ev i) (2 * i) = Some (2 * n)%nat.
Proof.
  induction fuel as [|fuel IH]; intros i Hi Hlow Hhit Hfuel; [lia|].
  rewrite scroll_loop_round.
  destruct (Nat.ltb_spec (count_after ev i) m) as [Hlt|Hge].
  - assert (i < n) by (destruct (decide (i = n)); [subst; lia | lia]).
    apply IH; [lia | intros k Hk; apply Hlow; lia | assumption | lia].
  - destruct (decide (i = n)) as [->|Hne]; [reflexivity|].
    specialize (Hlow i). lia.
Qed.

Lemma scroll_loop_running (fuel : nat) :
  forall i, (forall k, i <= k < i + fuel -> count_after ev k < m) ->
    scroll_loop fuel ev m (count_after ev i) (2 * i) = None.
Proof.
  induction fuel as [|fuel IH]; intros i Hlow; [reflexivity|].
  rewrite scroll_loop_round.
  destruct (Nat.ltb_spec (count_after ev i) m) as [Hlt|Hge].
  - apply IH. intros k Hk. apply Hlow. lia.
  - specialize (Hlow i). lia.
Qed.

Lemma scroll_loop_some (fuel : nat) :
  forall i calls,
    scroll_loop fuel ev m (count_after ev i) (2 * i) = Some calls ->
    exists n, i <= n /\ calls = (2 * n)%nat /\ m <= count_after ev n
              /\ forall k, i <= k < n -> count_after ev k < m.
Proof.
  induction fuel as [|fuel IH]; intros i calls Hrun; [discriminate|].
  rewrite scroll_loop_round in Hrun.
  destruct (Nat.ltb_spec (count_after ev i) m) as [Hlt|Hge].
  - destruct (IH _ _ Hrun) as (n & Hn & Hc & Hhit & Hlow).
    exists n. repeat split; [lia | assumption | assumption |].
    intros k Hk. destruct (decide (k = i)) as [->|]; [assumption | apply Hlow; lia].
  - exists i. inversion Hrun. repeat split; [lia | assumption | intros; lia].
Qed.

(** The counter is the length of the run of unchanged rounds that ends at
    the current round. *)
Lemma count_after_run (n : nat) :
  count_after ev n <= n
  /\ forall i, n - count_after ev n <= i < n -> stalled ev i = true.
Proof.
  induction n as [|n [IHle IHrun]]; simpl; [split; [lia | intros; lia]|].
  unfold next_count.
  destruct (ev (n + (n + 0)) =? ev (S (n + (n + 0))))%Z eqn:Heq.
  - split; [lia|]. intros i Hi.
    destruct (decide (i = n)) as [->|]; [exact Heq | apply IHrun; lia].
  - split; [lia | intros; lia].
Qed.

Lemma count_after_stalls (a j : nat) :
  (forall i, a <= i < a + j -> stalled ev i = true) ->
  count_after ev (a + j) = count_after ev a + j.
Proof.
  induction j as [|j IH]; intros Hst.
  - now rewrite !Nat.add_0_r.
  - replace (a + S j) with (S (a + j)) by lia. simpl.
    assert (Hlast : stalled ev (a + j) = true) by (apply Hst; lia).
    unfold stalled in Hlast. simpl in Hlast. unfold next_count. rewrite Hlast.
    rewrite IH; [lia|]. intros i Hi. apply Hst. lia.
Qed.

Lemma count_after_succ_le (n : nat) : count_after ev (S n) <= S (count_after ev n).
Proof. simpl. unfold next_count. destruct (_ =? _)%Z; lia. Qed.

Lemma first_reach (N : nat) :
  (exists n, n <= N /\ count_after ev n = m /\ forall k, k < n -> count_after ev k < m)
  \/ (forall k, k <= N -> count_after ev k < m).
Proof.
  induction N as [|N [IH|IH]].
  - destruct (decide (m = 0)) as [->|Hm].
    + left. exists 0. repeat split; [lia | intros; lia].
    + right. intros k Hk. replace k with 0 by lia. simpl. lia.
  - left. destruct IH as (n & Hn & Hrest). exists n. split; [lia | exact Hrest].
  - destruct (decide (count_after ev (S N) < m)) as [Hlt|Hge].
    + right. intros k Hk. destruct (decide (k = S N)) as [->|]; [assumption | apply IH; lia].
    + left. exists (S N). pose proof (count_after_succ_le N). pose proof (IH N).
      repeat split; [lia | lia | intros k Hk; apply IH; lia].
Qed.

(** Once [m] rounds in a row saw no change, the loop has stopped: at the
    first round at which the counter equals [m]. *)
Lemma scroll_loop_stops (a : nat) :
  (forall i, a <= i < a + m -> stalled ev i = true) ->
  exists n, n <= a + m /\ count_after ev n = m
            /\ (forall k, k < n -> count_after ev k < m)
            /\ forall fuel, n < fuel -> scroll_loop fuel ev m 0 0 = Some (2 * n)%nat.
Proof.
  intros Hst. pose proof (count_after_stalls a m Hst) as Hsum.
  destruct (first_reach (a + m)) as [(n & Hn & Hhit & Hlow)|Hnever].
  - exists n. repeat split; try assumption.
    intros fuel Hfuel.
    apply (scroll_loop_exit n fuel 0); [lia | intros; apply Hlow; lia | lia | lia].
  - specialize (Hnever (a + m)). lia.
Qed.

(** Without [m] unchanged rounds in a row the loop does not stop. *)
Lemma scroll_loop_never :
  (forall a, exists i, a <= i < a + m /\ stalled ev i = false) ->
  forall fuel, scroll_loop fuel ev m 0 0 = None.
Proof.
  intros Hmove fuel.
  destruct (scroll_loop fuel ev m 0 0) as [calls|] eqn:Hrun; [|reflexivity].
  destruct (scroll_loop_some fuel 0 calls Hrun) as (n & _ & _ & Hhit & _).
  destruct (count_after_run n) as [Hle Hrun'].
  destruct (Hmove (n - m)) as (i & Hi & Hfalse).
  rewrite Hrun' in Hfalse; [discriminate | lia].
Qed.

End ScrollLoop.

Lemma checks_round (h : nat -> Z) (i : nat) :
  checks h (2 * i) = h i /\ checks h (S (2 * i)) = h (S i).
Proof.
  unfold checks. split.
  - now rewrite Nat.div2_succ_double.
  - replace (S (S (2 * i))) with (2 * S i)%nat by lia. now rewrite Nat.div2_double.
Qed.

Lemma stalled_checks (h : nat -> Z) (i : nat) :
  stalled (checks h) i = (h i =? h (S i))%Z.
Proof. unfold stalled. destruct (checks_round h i) as [-> ->]. reflexivity. Qed.

Lemma scroll_loop_exit_count (ev : nat -> Z) (m fuel calls : nat) :
  scroll_loop fuel ev m 0 0 = Some calls ->
  exists n, calls = (2 * n)%nat /\ count_after ev n = m
            /\ forall k, k < n -> count_after ev k < m.
Proof.
  intros Hrun.
  destruct (scroll_loop_some ev m fuel 0 calls Hrun) as (n & _ & Hc & Hhit & Hlow).
  exists n. repeat split; [assumption | | intros; apply Hlow; lia].
  destruct n as [|n]; [simpl in *; lia|].
  pose proof (count_after_succ_le ev n). specialize (Hlow n). lia.
Qed.

(** The example of the specification: heights 100, 150, 150, 150, 150 and a
    threshold of 3.  The loop leaves after the fourth round, whose second
    reading is the height of index 4, whatever the page does afterwards. *)
Lemma scroll_loop_example (h : nat -> Z) :
  h 0 = 100%Z -> h 1 = 150%Z -> h 2 = 150%Z -> h 3 = 150%Z -> h 4 = 150%Z ->
  (forall fuel, 4 < fuel -> scroll_loop fuel (checks h) 3 0 0 = Some 8%nat)
  /\ scroll_loop 4 (checks h) 3 0 0 = None.
Proof.
  intros H0 H1 H2 H3 H4.
  assert (Hc : forall k, k <= 4 ->
             count_after (checks h) k = match k with 0 => 0 | S j => j end).
  { intros k Hk.
    assert (Hs : forall i, i < 4 -> count_after (checks h) (S i) =
              next_count (count_after (checks h) i) (h i) (h (S i))).
    { intros i _. simpl count_after.
      destruct (checks_round h i) as [E1 E2]. simpl in E1, E2. now rewrite E1, E2. }
    assert (C1 : count_after (checks h) 1 = 0).
    { rewrite Hs by lia. rewrite H0, H1. reflexivity. }
    assert (C2 : count_after (checks h) 2 = 1).
    { rewrite Hs by lia. rewrite C1, H1, H2. reflexivity. }
    assert (C3 : count_after (checks h) 3 = 2).
    { rewrite Hs by lia. rewrite C2, H2, H3. reflexivity. }
    assert (C4 : count_after (checks h) 4 = 3).
    { rewrite Hs by lia. rewrite C3, H3, H4. reflexivity. }
    do 5 (destruct k as [|k]; [assumption || reflexivity|]). lia. }
  split.
  - intros fuel Hfuel.
    apply (scroll_loop_exit (checks h) 3 4 fuel 0); [lia | | rewrite Hc; lia | lia].
    intros k Hk. rewrite Hc by lia. destruct k; lia.
  - apply (scroll_loop_running (checks h) 3 4 0).
    intros k Hk. rewrite Hc by lia. destruct k; lia.
Qed.

(** C2, as worded: the counter goes back to zero on an increase of the
    height and up by one otherwise.  On a page that shrinks, heights 400,
    300, 200, 100 and then 100 for ever, three rounds in a row see no growth,
    and a loop that counted them would leave after the third; the loop of
    the source sets the counter to zero on each of them and leaves after the
    sixth round. *)
Lemma C2_counter_resets_on_decrease :
  let ev := checks (of_list [400; 300; 200; 100]%Z) in
  (forall i, i < 3 -> (ev (S (2 * i)) <=? ev (2 * i)%nat)%Z = true)
  /\ spec_scroll_loop 7 ev 3 0 0 = Some 6%nat
  /\ scroll_loop 7 ev 3 0 0 = Some 12%nat
  /\ scroll_loop 7 ev 3 0 0 <> spec_scroll_loop 7 ev 3 0 0
  /\ next_count 1 150 100 = 0%nat
  /\ spec_count 1 150 100 = 2%nat.
Proof.
  cbv zeta. repeat split; try reflexivity.
  - intros i Hi. do 3 (destruct i as [|i]; [reflexivity|]). lia.
  - vm_compute. discriminate.
Qed.

(** C2, amended.  The counter goes up by one when the two heights read in a
    round are equal and back to zero when they differ, upwards or
    downwards; the loop leaves exactly when the counter equals the
    threshold; once threshold-many rounds in a row saw no change it has
    left; on 100, 150, 150, 150, 150 with threshold 3 it leaves after the
    third repeat. *)
Theorem C2_scroll_counter (ev : nat -> Z) (m a : nat)
  (Hstall : forall i, a <= i < a + m -> stalled ev i = true) :
  (forall fuel count calls, count < m ->
     scroll_loop (S fuel) ev m count calls =
       scroll_loop fuel ev m
         (if decide (ev calls = ev (S calls)) then count + 1 else 0) (calls + 2))
  /\ (forall fuel calls, scroll_loop (S fuel) ev m m calls = Some calls)
  /\ (forall fuel calls, scroll_loop fuel ev m 0 0 = Some calls ->
        exists n, calls = (2 * n)%nat /\ count_after ev n = m
                  /\ forall k, k < n -> count_after ev k < m)
  /\ (exists n, n <= a + m /\ count_after ev n = m
                /\ (forall k, k < n -> count_after ev k < m)
                /\ forall fuel, n < fuel -> scroll_loop fuel ev m 0 0 = Some (2 * n)%nat)
  /\ (forall h : nat -> Z,
        h 0 = 100%Z -> h 1 = 150%Z -> h 2 = 150%Z -> h 3 = 150%Z -> h 4 = 150%Z ->
        (forall fuel, 4 < fuel -> scroll_loop fuel (checks h) 3 0 0 = Some 8%nat)
        /\ scroll_loop 4 (checks h) 3 0 0 = None).
Proof.
  split; [|split; [|split; [|split]]].
  - intros fuel count calls Hlt. rewrite scroll_loop_step.
    destruct (Nat.ltb_spec count m); [|lia]. unfold next_count.
    destruct (Z.eqb_spec (ev calls) (ev (S calls))); destruct (decide _); congruence.
  - intros fuel calls. rewrite scroll_loop_step. now rewrite Nat.ltb_irrefl.
  - intros fuel calls. apply scroll_loop_exit_count.
  - apply scroll_loop_stops, Hstall.
  - apply scroll_loop_example.
Qed.

(** The heights of the specification's example: rounds 1 to 3 see no change. *)
Lemma C2_scroll_counter_witness :
  let ev := checks (of_list [100; 150; 150; 150; 150]%Z) in
  (forall i, 1 <= i < 1 + 3 -> stalled ev i = true)
  /\ exists n, n <= 1 + 3 /\ count_after ev n = 3
               /\ (forall k, k < n -> count_after ev k < 3)
               /\ forall fuel, n < fuel -> scroll_loop fuel ev 3 0 0 = Some (2 * n)%nat.
Proof.
  cbv zeta.
  assert (Hst : forall i, 1 <= i < 1 + 3 ->
            stalled (checks (of_list [100; 150; 150; 150; 150]%Z)) i = true).
  { intros i Hi. do 4 (destruct i as [|i]; [lia || reflexivity|]). lia. }
  split; [exact Hst|].
  exact (proj1 (proj2 (proj2 (proj2
           (C2_scroll_counter (checks (of_list [100; 150; 150; 150; 150]%Z)) 3 1 Hst))))).
Defined.

(** C7. The loop has no bound on its rounds: a page that never shows
    threshold-many unchanged rounds in a row keeps it running for ever, and
    such pages exist (one that grows at every round). *)
Theorem C7_scroll_loop_unbounded (m : nat) (Hm : 0 < m) :
  (forall ev, (forall a, exists i, a <= i < a + m /\ stalled ev i = false) ->
     forall fuel, scroll_loop fuel ev m 0 0 = None)
  /\ exists h : nat -> Z,
       (forall i, (h i < h (S i))%Z)
       /\ (forall a, exists i, a <= i < a + m /\ stalled (checks h) i = false)
       /\ forall fuel, scroll_loop fuel (checks h) m 0 0 = None.
Proof.
  split; [intros ev; apply scroll_loop_never|].
  exists Z.of_nat.
  assert (Hmove : forall a, exists i, a <= i < a + m /\ stalled (checks Z.of_nat) i = false).
  { intros a. exists a. split; [lia|]. rewrite stalled_checks. apply Z.eqb_neq. lia. }
  split; [intros i; lia|]. split; [exact Hmove|].
  apply scroll_loop_never, Hmove.
Qed.

(** The threshold of the sequential variant. *)
Lemma C7_scroll_loop_unbounded_witness :
  0 < max_count_sync
  /\ exists h : nat -> Z,
       (forall i, (h i < h (S i))%Z)
       /\ (forall a, exists i, a <= i < a + max_count_sync /\ stalled (checks h) i = false)
       /\ forall fuel, scroll_loop fuel (checks h) max_count_sync 0 0 = None.
Proof.
  assert (Hm : 0 < max_count_sync) by (unfold max_count_sync; lia).
  split; [exact Hm|].
  exact (proj2 (C7_scroll_loop_unbounded max_count_sync Hm)).
Defined.

(** ** Row extractor *)

Section CellLoop.

Variable headers : list string.
Variable cells : list Cell.

Local Abbreviation body := (cell_body headers cells).

Lemma fold_left_inv {A B : Type} (P : A -> Prop) (f : A -> B -> A) (l : list B) :
  forall a, P a -> (forall a b, In b l -> P a -> P (f a b)) -> P (fold_left f l a).
Proof.
  induction l as [|b l IH]; intros a Ha Hstep; simpl; [assumption|].
  apply IH; [apply Hstep; [now left | assumption]|].
  intros a' b' Hb'. apply Hstep. now right.
Qed.

(** A cell without a header label at its index: the exception is caught
    and logged, nothing is stored. *)
Lemma cell_body_no_header (s : st) (idx : nat) :
  headers !! idx = None -> body s idx = log_error s IndexError.
Proof. intros H. unfold cell_body. now rewrite H. Qed.

(** A step writes at most the key found in [headers] at its index. *)
Lemma cell_body_other_key (s : st) (idx : nat) (k : string) :
  headers !! idx <> Some k -> coin_info (body s idx) !! k = coin_info s !! k.
Proof.
  intros Hk. unfold cell_body.
  destruct (headers !! idx) as [header|]; [|reflexivity].
  assert (header <> k) by congruence.
  destruct (idx =? _)%nat.
  - destruct (cells !! idx) as [c|]; [|reflexivity].
    destruct (cell_img c); [|reflexivity]. simpl. now rewrite lookup_insert_ne.
  - destruct (map cell_text cells !! idx) as [v|]; [|reflexivity].
    destruct (String.eqb v EmptyString); [reflexivity|].
    simpl. now rewrite lookup_insert_ne.
Qed.

Lemma fold_other_key (l : list nat) (k : string) :
  forall s, (forall j, In j l -> headers !! j <> Some k) ->
    coin_info (fold_left body l s) !! k = coin_info s !! k.
Proof.
  induction l as [|j l IH]; intros s Hl; simpl; [reflexivity|].
  rewrite IH by (intros; apply Hl; now right).
  apply cell_body_other_key, Hl. now left.
Qed.

(** A step with a header and a cell at its index logs nothing. *)
Lemma cell_body_quiet (s : st) (idx : nat) :
  idx < length headers -> idx < length cells -> errors (body s idx) = errors s.
Proof.
  intros Hh Hc. unfold cell_body.
  destruct (lookup_lt_is_Some_2 headers idx Hh) as [header ->].
  destruct (lookup_lt_is_Some_2 cells idx Hc) as [c Hcell]. rewrite Hcell.
  rewrite list_lookup_fmap, Hcell. simpl.
  destruct (idx =? _)%nat.
  - destruct (cell_img c); reflexivity.
  - destruct (String.eqb _ EmptyString); reflexivity.
Qed.

Lemma fold_quiet (l : list nat) :
  forall s, (forall j, In j l -> j < length headers /\ j < length cells) ->
    errors (fold_left body l s) = errors s.
Proof.
  induction l as [|j l IH]; intros s Hl; simpl; [reflexivity|].
  rewrite IH by (intros; apply Hl; now right).
  apply cell_body_quiet; apply Hl; now left.
Qed.

Lemma fold_no_header (l : list nat) :
  forall s, (forall j, In j l -> length headers <= j) ->
    fold_left body l s =
      {| coin_info := coin_info s;
         errors := errors s ++ replicate (length l) IndexError |}.
Proof.
  induction l as [|j l IH]; intros s Hl; simpl.
  - rewrite app_nil_r. now destruct s.
  - rewrite cell_body_no_header by (apply lookup_ge_None_2, Hl; now left).
    rewrite IH by (intros; apply Hl; now right).
    unfold log_error. simpl. now rewrite <- app_assoc.
Qed.

(** The cells beyond the headers add one log entry each and nothing else;
    the cells before them are extracted as they are without them. *)
Lemma cell_loop_short_headers (s : st) :
  length headers <= length cells ->
  cell_loop headers cells s =
    {| coin_info := coin_info (fold_left body (seq 0 (length headers)) s);
       errors := errors s ++ replicate (length cells - length headers) IndexError |}.
Proof.
  intros Hle. unfold cell_loop. rewrite length_map.
  replace (length cells) with (length headers + (length cells - length headers)) at 1 by lia.
  rewrite seq_app, fold_left_app. simpl.
  rewrite fold_no_header by (intros j Hj; apply in_seq in Hj; lia).
  rewrite length_seq. f_equal.
  rewrite fold_quiet; [reflexivity|].
  intros j Hj. apply in_seq in Hj. lia.
Qed.

(** The entry written for a cell survives when no later cell has the same
    header label. *)
Lemma cell_loop_entry (s : st) (idx : nat) (h : string) (v : value) :
  idx < length cells ->
  headers !! idx = Some h ->
  (forall j, idx < j < length cells -> headers !! j <> Some h) ->
  (forall s', coin_info (body s' idx) !! h = Some v) ->
  coin_info (cell_loop headers cells s) !! h = Some v.
Proof.
  intros Hidx Hh Hlater Hwrite. unfold cell_loop. rewrite length_map.
  replace (length cells) with (idx + S (length cells - S idx)) by lia.
  rewrite seq_app, fold_left_app. simpl.
  rewrite fold_other_key; [apply Hwrite|].
  intros j Hj. apply in_seq in Hj. apply Hlater. lia.
Qed.

End CellLoop.

Lemma cells_of_loop (headers : list string) (row : Row) (s : st) :
  cells_of headers row s = cell_loop headers (cell_elements row) s.
Proof.
  unfold cells_of, cell_loop.
  destruct (map cell_text (cell_elements row)); reflexivity.
Qed.

Lemma raw_row_async_inv (headers : list string) (row : Row) (s : st) :
  raw_row_async headers row = Return s ->
  exists s0, lead_async row fresh = Return s0 /\ s = cells_of headers row s0.
Proof.
  unfold raw_row_async. destruct (lead_async row fresh) as [s0|e]; [|discriminate].
  intros [= <-]. now exists s0.
Qed.

Lemma cell_body_text (headers : list string) (cells : list Cell) (s : st)
  (idx : nat) (h : string) (c : Cell) :
  headers !! idx = Some h -> cells !! idx = Some c ->
  idx <> length cells - 1 -> cell_text c <> EmptyString ->
  coin_info (cell_body headers cells s idx) !! h = Some (VStr (cell_text c)).
Proof.
  intros Hh Hc Hlast Htext. unfold cell_body. rewrite Hh, length_map.
  destruct (Nat.eqb_spec idx (length cells - 1)); [contradiction|].
  rewrite list_lookup_fmap, Hc. simpl.
  destruct (String.eqb_spec (cell_text c) EmptyString); [contradiction|].
  simpl. apply lookup_insert_eq.
Qed.

Lemma cell_body_image (headers : list string) (cells : list Cell) (s : st)
  (idx : nat) (h : string) (c : Cell) (img : Img) :
  headers !! idx = Some h -> cells !! idx = Some c ->
  idx = length cells - 1 -> cell_img c = Some img ->
  coin_info (cell_body headers cells s idx) !! h = Some (img_get_src img).
Proof.
  intros Hh Hc Hlast Himg. unfold cell_body. rewrite Hh, length_map.
  destruct (Nat.eqb_spec idx (length cells - 1)); [|contradiction].
  rewrite Hc, Himg. simpl. apply lookup_insert_eq.
Qed.

Lemma fold_left_ext_in {A B : Type} (f g : A -> B -> A) (l : list B) :
  (forall a b, In b l -> f a b = g a b) ->
  forall a, fold_left f l a = fold_left g l a.
Proof.
  induction l as [|b l IH]; intros Hfg a; simpl; [reflexivity|].
  rewrite Hfg by now left. apply IH. intros a' b' Hb'. apply Hfg. now right.
Qed.

(** The text of the last cell is never read. *)
Lemma cell_loop_last_text (headers : list string) (cells : list Cell) (s : st)
  (c : Cell) (text : string) :
  cells !! (length cells - 1) = Some c ->
  cell_loop headers (<[length cells - 1 := set_cell_text c text]> cells) s
  = cell_loop headers cells s.
Proof.
  intros Hc. unfold cell_loop. rewrite !length_map, length_insert.
  apply fold_left_ext_in. intros s' j Hj. apply in_seq in Hj.
  unfold cell_body. rewrite !length_map, length_insert.
  destruct (headers !! j) as [h|]; [|reflexivity].
  destruct (Nat.eqb_spec j (length cells - 1)) as [->|Hne].
  - rewrite list_lookup_insert_eq by lia. now rewrite Hc.
  - rewrite !list_lookup_fmap, list_lookup_insert_ne by congruence. reflexivity.
Qed.

(** C6. A data cell is paired with the header label at its index: a cell
    before the last stores its text there, the last cell stores the image
    reference there, and its text, empty or not, is never read.  For labels
    "Price", "1h %", "7d %", texts "$1.23", "+0.5%", empty, and the image
    "chart.png" the RawRow is the one of the specification.  (An entry is
    read back provided no later cell of the row has the same label.) *)
Theorem C6_positional_pairing
  (headers : list string) (row : Row) (idx : nat) (h : string) (c : Cell)
  (Hcell : cell_elements row !! idx = Some c)
  (Hlabel : headers !! idx = Some h)
  (Hlater : forall j, idx < j < length (cell_elements row) -> headers !! j <> Some h) :
  let last := length (cell_elements row) - 1 in
  let paired (d : gmap string value) :=
    (idx <> last -> cell_text c <> EmptyString -> d !! h = Some (VStr (cell_text c)))
    /\ (idx = last -> forall img, cell_img c = Some img -> d !! h = Some (img_get_src img)) in
  (forall s, paired (coin_info (cell_body headers (cell_elements row) s idx)))
  /\ paired (coin_info (raw_row_sync headers row))
  /\ (forall s, raw_row_async headers row = Return s -> paired (coin_info s))
  /\ (idx = last -> forall text,
        let row' := set_cells row (<[idx := set_cell_text c text]> (cell_elements row)) in
        raw_row_sync headers row' = raw_row_sync headers row
        /\ raw_row_async headers row' = raw_row_async headers row)
  /\ coin_info (raw_row_sync example_headers example_row)
     = {[ "Price" := VStr "$1.23"; "1h %" := VStr "+0.5%"; "7d %" := VStr "chart.png" ]}
  /\ raw_row_async example_headers example_row
     = Return (raw_row_sync example_headers example_row).
Proof.
  intros last paired.
  assert (Hidx : idx < length (cell_elements row)) by (eapply lookup_lt_Some; eassumption).
  assert (Hpaired : forall s0, paired (coin_info (cells_of headers row s0))).
  { intros s0. rewrite cells_of_loop. split.
    - intros Hne Htext. apply cell_loop_entry with (idx := idx); try assumption.
      intros s'. now apply (cell_body_text headers (cell_elements row) s' idx h c).
    - intros Heq img Himg. apply cell_loop_entry with (idx := idx); try assumption.
      intros s'. now apply (cell_body_image headers (cell_elements row) s' idx h c img). }
  split.
  { intros s. split.
    - intros Hne Htext. now apply (cell_body_text headers (cell_elements row) s idx h c).
    - intros Heq img Himg.
      now apply (cell_body_image headers (cell_elements row) s idx h c img). }
  split; [apply Hpaired|]. split.
  { intros s Hs. destruct (raw_row_async_inv _ _ _ Hs) as (s0 & _ & ->). apply Hpaired. }
  split.
  { intros Hlast text row'.
    assert (Hloop : forall s0, cells_of headers row' s0 = cells_of headers row s0).
    { intros s0. rewrite !cells_of_loop. subst row'. simpl. subst idx.
      apply cell_loop_last_text. exact Hcell. }
    split.
    - unfold raw_row_sync. rewrite Hloop. reflexivity.
    - unfold raw_row_async. change (lead_async row' fresh) with (lead_async row fresh).
      destruct (lead_async row fresh); [now rewrite Hloop | reflexivity]. }
  split; vm_compute; reflexivity.
Qed.

(** The last cell of the example row, read back under its label. *)
Lemma C6_positional_pairing_witness :
  cell_elements example_row !! 2 = Some (img_cell EmptyString "chart.png")
  /\ example_headers !! 2 = Some "7d %"
  /\ (forall j, 2 < j < length (cell_elements example_row) ->
        example_headers !! j <> Some "7d %")
  /\ coin_info (raw_row_sync example_headers example_row) !! "7d %"
     = Some (VStr "chart.png").
Proof.
  assert (Hlater : forall j, 2 < j < length (cell_elements example_row) ->
            example_headers !! j <> Some "7d %") by (simpl; intros; lia).
  split; [reflexivity|]. split; [reflexivity|]. split; [exact Hlater|].
  exact (proj2 (proj1 (proj2 (C6_positional_pairing example_headers example_row 2 "7d %"
                         (img_cell EmptyString "chart.png") eq_refl eq_refl Hlater)))
               eq_refl {| img_src := Some "chart.png" |} eq_refl).
Defined.

(** The leading selectors write the keys "rank", "logo", "name", "symbol"
    and no other. *)
Lemma set_opt_other_key (k k' : string) (o : option value) (s : st) :
  k <> k' -> coin_info (set_opt k o s) !! k' = coin_info s !! k'.
Proof. intros Hk. destruct o; simpl; [now rewrite lookup_insert_ne | reflexivity]. Qed.

Lemma lead_sync_other_key (row : Row) (k : string) :
  ~ In k ["rank"; "logo"; "name"; "symbol"] ->
  coin_info (lead_sync row fresh) !! k = None.
Proof.
  intros Hk. simpl in Hk. unfold lead_sync.
  rewrite !set_opt_other_key by tauto. reflexivity.
Qed.

Lemma lead_async_other_key (row : Row) (s0 : st) (k : string) :
  lead_async row fresh = Return s0 ->
  ~ In k ["rank"; "logo"; "name"; "symbol"] ->
  coin_info s0 !! k = None.
Proof.
  intros Hlead Hk. simpl in Hk. unfold lead_async in Hlead.
  destruct (rank_td row) as [text|].
  - destruct (py_int text) as [z|e]; [|discriminate].
    injection Hlead as <-. rewrite !set_opt_other_key by tauto.
    simpl. rewrite lookup_insert_ne by tauto. reflexivity.
  - injection Hlead as <-. rewrite !set_opt_other_key by tauto. reflexivity.
Qed.

Lemma lead_sync_rank (row : Row) (text : string) :
  rank_td row = Some text ->
  coin_info (lead_sync row fresh) !! "rank" = Some (VStr text).
Proof.
  intros Hr. unfold lead_sync. rewrite !set_opt_other_key by discriminate.
  rewrite Hr. simpl. apply lookup_insert_eq.
Qed.

Lemma lead_async_rank (row : Row) (text : string) (s0 : st) :
  rank_td row = Some text ->
  lead_async row fresh = Return s0 ->
  exists z, py_int text = Return z /\ coin_info s0 !! "rank" = Some (VInt z).
Proof.
  intros Hr Hlead. unfold lead_async in Hlead. rewrite Hr in Hlead.
  destruct (py_int text) as [z|e]; [|discriminate].
  injection Hlead as <-. exists z. split; [reflexivity|].
  rewrite !set_opt_other_key by discriminate. simpl. apply lookup_insert_eq.
Qed.

Lemma cells_of_other_key (headers : list string) (row : Row) (s : st) (k : string) :
  ~ In k headers -> coin_info (cells_of headers row s) !! k = coin_info s !! k.
Proof.
  intros Hk. rewrite cells_of_loop. apply fold_other_key.
  intros j _ Hj. apply Hk. apply list_elem_of_In. eapply list_elem_of_lookup_2. eassumption.
Qed.

Lemma emit_nonempty (d : gmap string value) (k : string) (v : value) :
  d !! k = Some v -> emit d = [normalize d].
Proof.
  intros Hk. unfold emit. destruct (decide (d = ∅)) as [->|]; [|reflexivity].
  rewrite lookup_empty in Hk. discriminate.
Qed.

(** C8, as worded: the rank of a record is an integer in both variants.
    The sequential variant stores the text of the rank cell. *)
Lemma C8_sync_rank_is_text :
  exists c, fst (rows_sync example_headers [ranked_row "1" []]) = [c]
            /\ rank c = VStr "1"
            /\ forall z, rank c <> VInt z.
Proof.
  eexists. split; [vm_compute; reflexivity|]. split; [reflexivity | discriminate].
Qed.

(** C8, amended.  For a row with a rank cell, on a page without a column
    labelled "rank", the rank of the record is the integer read from the
    cell in the concurrent variant and the text of the cell in the
    sequential variant; the row yields a record in both. *)
Theorem C8_rank_type (headers : list string) (row : Row) (text : string)
  (Hrank : rank_td row = Some text)
  (Hlabel : ~ In "rank" headers) :
  (rank (normalize (coin_info (raw_row_sync headers row))) = VStr text
   /\ emit (coin_info (raw_row_sync headers row))
      = [normalize (coin_info (raw_row_sync headers row))])
  /\ forall s, raw_row_async headers row = Return s ->
       exists z, py_int text = Return z
                 /\ rank (normalize (coin_info s)) = VInt z
                 /\ emit (coin_info s) = [normalize (coin_info s)].
Proof.
  split.
  - assert (Hr : coin_info (raw_row_sync headers row) !! "rank" = Some (VStr text)).
    { unfold raw_row_sync. rewrite cells_of_other_key by assumption.
      now apply lead_sync_rank. }
    split; [simpl; unfold dict_get; now rewrite Hr | eapply emit_nonempty; eassumption].
  - intros s Hs. destruct (raw_row_async_inv _ _ _ Hs) as (s0 & Hlead & ->).
    destruct (lead_async_rank row text s0 Hrank Hlead) as (z & Hz & Hr0).
    assert (Hr : coin_info (cells_of headers row s0) !! "rank" = Some (VInt z)).
    { now rewrite cells_of_other_key by assumption. }
    exists z. split; [assumption|].
    split; [simpl; unfold dict_get; now rewrite Hr | eapply emit_nonempty; eassumption].
Qed.

(** A row of rank 2 on a page with the columns "Price" and "Last 7 Days". *)
Lemma C8_rank_type_witness :
  rank_td (ranked_row "2" [text_cell "$7"; img_cell EmptyString "b.svg"]) = Some "2"
  /\ ~ In "rank" ["Price"; "Last 7 Days"]
  /\ rank (normalize (coin_info
        (raw_row_sync ["Price"; "Last 7 Days"]
           (ranked_row "2" [text_cell "$7"; img_cell EmptyString "b.svg"])))) = VStr "2".
Proof.
  assert (Hlabel : ~ In "rank" ["Price"; "Last 7 Days"]).
  { simpl. intros [H|[H|[]]]; discriminate. }
  split; [reflexivity|]. split; [exact Hlabel|].
  exact (proj1 (proj1 (C8_rank_type ["Price"; "Last 7 Days"]
                         (ranked_row "2" [text_cell "$7"; img_cell EmptyString "b.svg"]) "2"
                         eq_refl Hlabel))).
Defined.

Lemma normalize_get (d : gmap string value) (f : field) :
  coin_get (normalize d) f = dict_get d (expected_label f).
Proof. destruct f; reflexivity. Qed.

Lemma string_field_label (f : field) :
  In f string_fields -> ~ In (expected_label f) ["rank"; "logo"; "name"; "symbol"].
Proof.
  intros Hf Hk. simpl in Hf, Hk.
  repeat (destruct Hf as [<-|Hf]; [simpl in Hk; intuition discriminate|]).
  exact Hf.
Qed.

Section DisplayEntries.

Variable headers : list string.
Variable cells : list Cell.
Variable k : string.

(** What the cell loop can leave under a key that the leading selectors do
    not write. *)
Local Abbreviation entry_ok o :=
  (o = None
   \/ (exists t, o = Some (VStr t) /\ t <> EmptyString)
   \/ (exists c img, cells !! (length cells - 1) = Some c /\ cell_img c = Some img
                     /\ headers !! (length cells - 1) = Some k
                     /\ o = Some (img_get_src img))).

Lemma cell_body_entry (s : st) (idx : nat) :
  entry_ok (coin_info s !! k) ->
  entry_ok (coin_info (cell_body headers cells s idx) !! k).
Proof.
  intros Hs.
  destruct (decide (headers !! idx = Some k)) as [Hk|Hk];
    [|now rewrite cell_body_other_key].
  unfold cell_body. rewrite Hk, length_map.
  destruct (Nat.eqb_spec idx (length cells - 1)) as [->|Hne].
  - destruct (cells !! (length cells - 1)) as [c|] eqn:Hc; [|exact Hs].
    destruct (cell_img c) as [img|] eqn:Himg; [|exact Hs].
    right; right. exists c, img. simpl. rewrite lookup_insert_eq. auto.
  - destruct (map cell_text cells !! idx) as [t|]; [|exact Hs].
    destruct (String.eqb_spec t EmptyString); [exact Hs|].
    right; left. exists t. simpl. rewrite lookup_insert_eq. auto.
Qed.

Lemma cell_loop_entry_ok (s : st) :
  entry_ok (coin_info s !! k) -> entry_ok (coin_info (cell_loop headers cells s) !! k).
Proof.
  intros Hs. unfold cell_loop.
  apply (fold_left_inv (fun s => entry_ok (coin_info s !! k))); [exact Hs|].
  intros s' idx _. apply cell_body_entry.
Qed.

(** A cell before the last whose text is empty stores nothing. *)
Lemma cell_body_empty_text (s : st) (idx : nat) (c : Cell) :
  idx <> length cells - 1 -> cells !! idx = Some c -> cell_text c = EmptyString ->
  coin_info (cell_body headers cells s idx) = coin_info s.
Proof.
  intros Hne Hc Ht. unfold cell_body. rewrite length_map.
  destruct (headers !! idx); [|reflexivity].
  destruct (Nat.eqb_spec idx (length cells - 1)); [contradiction|].
  rewrite list_lookup_fmap, Hc. simpl. now rewrite Ht.
Qed.

End DisplayEntries.

(** C9, as worded: no display field is ever the empty string.  A row whose
    only data cell stands under "Price" and holds an image with an empty
    [src] gets the empty string as its price, in both variants. *)
Lemma C9_empty_image_reference :
  (exists c, fst (rows_sync ["Price"] [empty_src_row]) = [c] /\ price c = VStr EmptyString)
  /\ (exists c, fst (rows_async ["Price"] [empty_src_row]) = [c] /\ price c = VStr EmptyString).
Proof. split; eexists; (split; [vm_compute; reflexivity | reflexivity]). Qed.

(** C9, amended.  A data cell before the last whose text is empty produces
    no entry, and each display field of the record is null, a non-empty
    string, or the image reference of the last data cell of the row when
    that cell stands under the label of the field. *)
Theorem C9_display_fields (headers : list string) (row : Row) (f : field)
  (Hf : In f string_fields) :
  let cells := cell_elements row in
  let last := length cells - 1 in
  let ok (v : value) :=
    v = VNone
    \/ (exists t, v = VStr t /\ t <> EmptyString)
    \/ (exists c img, cells !! last = Some c /\ cell_img c = Some img
                      /\ headers !! last = Some (expected_label f)
                      /\ v = img_get_src img) in
  (forall s idx c, idx <> last -> cells !! idx = Some c -> cell_text c = EmptyString ->
     coin_info (cell_body headers cells s idx) = coin_info s)
  /\ ok (coin_get (normalize (coin_info (raw_row_sync headers row))) f)
  /\ forall s, raw_row_async headers row = Return s ->
       ok (coin_get (normalize (coin_info s)) f).
Proof.
  intros cells last ok.
  assert (Hok : forall s0, coin_info s0 !! expected_label f = None ->
            ok (coin_get (normalize (coin_info (cells_of headers row s0))) f)).
  { intros s0 H0. rewrite normalize_get, cells_of_loop. unfold dict_get.
    destruct (cell_loop_entry_ok headers cells (expected_label f) s0) as [H|[H|H]].
    - left. exact H0.
    - fold cells. rewrite H. now left.
    - destruct H as (t & H & Ht). fold cells. rewrite H. right; left. now exists t.
    - destruct H as (c & img & Hc & Himg & Hh & H). fold cells. rewrite H.
      right; right. now exists c, img. }
  split; [intros s idx c; apply cell_body_empty_text|]. split.
  - apply Hok. apply lead_sync_other_key, string_field_label, Hf.
  - intros s Hs. destruct (raw_row_async_inv _ _ _ Hs) as (s0 & Hlead & ->).
    apply Hok. eapply lead_async_other_key; [eassumption|].
    apply string_field_label, Hf.
Qed.

(** The price of the example row. *)
Lemma C9_display_fields_witness :
  In Price string_fields
  /\ let v := coin_get (normalize (coin_info (raw_row_sync example_headers example_row))) Price in
     v = VNone
     \/ (exists t, v = VStr t /\ t <> EmptyString)
     \/ (exists c img, cell_elements example_row !! 2 = Some c /\ cell_img c = Some img
                       /\ example_headers !! 2 = Some (expected_label Price)
                       /\ v = img_get_src img).
Proof.
  assert (Hf : In Price string_fields) by (simpl; auto).
  split; [exact Hf|].
  exact (proj1 (proj2 (C9_display_fields example_headers example_row Price Hf))).
Defined.

(** ** Rows and pages *)

Lemma lead_sync_errors (row : Row) : errors (lead_sync row fresh) = [].
Proof.
  unfold lead_sync, set_opt.
  destruct (option_map VStr (rank_td row)), (option_map img_get_src (logo_img row)),
    (option_map VStr (name_p row)), (option_map VStr (symbol_p row)); reflexivity.
Qed.

Lemma lead_async_errors (row : Row) (s0 : st) :
  lead_async row fresh = Return s0 -> errors s0 = [].
Proof.
  unfold lead_async, set_opt. intros Hlead.
  destruct (rank_td row) as [text|]; [destruct (py_int text); [|discriminate]|];
    injection Hlead as <-;
    destruct (option_map img_get_src (logo_img row)),
      (option_map VStr (name_p row)), (option_map VStr (symbol_p row)); reflexivity.
Qed.

Lemma rank_converts_lead (row : Row) :
  rank_converts row = true -> exists s0, lead_async row fresh = Return s0.
Proof.
  unfold rank_converts, lead_async.
  destruct (rank_td row) as [text|]; [|eauto].
  destruct (py_int text); [eauto | discriminate].
Qed.

Lemma rows_sync_app (headers : list string) (rows1 rows2 : list Row) :
  rows_sync headers (rows1 ++ rows2) =
    (fst (rows_sync headers rows1) ++ fst (rows_sync headers rows2),
     snd (rows_sync headers rows1) ++ snd (rows_sync headers rows2)).
Proof.
  induction rows1 as [|row rows1 IH]; simpl.
  - now destruct (rows_sync headers rows2).
  - rewrite IH. destruct (rows_sync headers rows1) as [coins log]. simpl.
    now rewrite <- !app_assoc.
Qed.

Lemma rows_async_app (headers : list string) (rows1 rows2 : list Row) :
  forallb rank_converts rows1 = true ->
  rows_async headers (rows1 ++ rows2) =
    (fst (rows_async headers rows1) ++ fst (rows_async headers rows2),
     snd (rows_async headers rows1) ++ snd (rows_async headers rows2)).
Proof.
  induction rows1 as [|row rows1 IH]; simpl; intros Hok.
  - now destruct (rows_async headers rows2).
  - apply andb_prop in Hok as [Hrow Hrest].
    destruct (rank_converts_lead row Hrow) as (s0 & Hlead).
    unfold raw_row_async. rewrite Hlead. rewrite IH by assumption.
    destruct (rows_async headers rows1) as [coins log]. simpl.
    now rewrite <- !app_assoc.
Qed.

(** C3, as worded: no bad cell aborts the page.  In the concurrent variant
    a rank cell whose text is not an integer ends the extraction of the
    page: the following row, which the sequential variant extracts, yields
    nothing. *)
Lemma C3_bad_rank_cell_ends_page :
  scrape_async unranked_soup = ([], [PageError ValueError])
  /\ length (fst (scrape_sync unranked_soup)) = 2
  /\ length (fst (rows_async (th_end unranked_soup) (tl (tr unranked_soup)))) = 1.
Proof. vm_compute. repeat split. Qed.

(** C3, amended.  A data cell with no header label at its index fails
    inside the handler of the cell loop: the error is logged and nothing is
    stored for it; the cells under the headers are extracted as without it;
    the rows before and after are extracted as well.  In the concurrent
    variant this is so on pages whose rank cells hold integers up to that
    row. *)
Theorem C3_bad_data_cell
  (headers : list string) (before after : list Row) (row : Row) (idx : nat)
  (Hidx : idx < length (cell_elements row))
  (Hbad : headers !! idx = None) :
  let cells := cell_elements row in
  let extra := replicate (length cells - length headers) IndexError in
  (forall s, cell_body headers cells s idx = log_error s IndexError)
  /\ In IndexError extra
  /\ (forall s, cell_loop headers cells s =
        {| coin_info := coin_info (fold_left (cell_body headers cells)
                                             (seq 0 (length headers)) s);
           errors := errors s ++ extra |})
  /\ rows_sync headers (before ++ row :: after) =
       (fst (rows_sync headers before)
          ++ emit (coin_info (raw_row_sync headers row))
          ++ fst (rows_sync headers after),
        snd (rows_sync headers before) ++ map CellError extra
          ++ snd (rows_sync headers after))
  /\ (forallb rank_converts (before ++ [row]) = true ->
      exists s, raw_row_async headers row = Return s
        /\ rows_async headers (before ++ row :: after) =
             (fst (rows_async headers before) ++ emit (coin_info s)
                ++ fst (rows_async headers after),
              snd (rows_async headers before) ++ map CellError extra
                ++ snd (rows_async headers after))).
Proof.
  intros cells extra.
  assert (Hlen : length headers <= idx) by now apply lookup_ge_None_1.
  assert (Hloop : forall s, cell_loop headers cells s =
            {| coin_info := coin_info (fold_left (cell_body headers cells)
                                                 (seq 0 (length headers)) s);
               errors := errors s ++ extra |}).
  { intros s. apply cell_loop_short_headers. fold cells in Hidx. lia. }
  split; [intros s; now apply cell_body_no_header|].
  split.
  { subst extra. fold cells in Hidx.
    destruct (length cells - length headers) as [|n] eqn:Hn; [lia | now left]. }
  split; [exact Hloop|]. split.
  - rewrite rows_sync_app. simpl.
    destruct (rows_sync headers after) as [coins log]. simpl.
    unfold raw_row_sync at 2. rewrite cells_of_loop. fold cells. rewrite Hloop. simpl.
    now rewrite lead_sync_errors.
  - intros Hranks. rewrite forallb_app in Hranks.
    apply andb_prop in Hranks as [Hbefore Hrow]. simpl in Hrow.
    rewrite andb_true_r in Hrow.
    destruct (rank_converts_lead row Hrow) as (s0 & Hlead).
    exists (cells_of headers row s0). split.
    + unfold raw_row_async. now rewrite Hlead.
    + rewrite rows_async_app by assumption. simpl.
      unfold raw_row_async. rewrite Hlead.
      destruct (rows_async headers after) as [coins log]. simpl.
      rewrite (cells_of_loop headers row s0) at 2. fold cells. rewrite Hloop. simpl.
      now rewrite (lead_async_errors row s0 Hlead).
Qed.

(** A row of three data cells on a page with two headers, between two
    other rows. *)
Lemma C3_bad_data_cell_witness :
  2 < length (cell_elements wide_row)
  /\ ["Price"; "1h %"] !! 2 = None
  /\ rows_sync ["Price"; "1h %"] ([example_row] ++ wide_row :: [example_row]) =
       (fst (rows_sync ["Price"; "1h %"] [example_row])
          ++ emit (coin_info (raw_row_sync ["Price"; "1h %"] wide_row))
          ++ fst (rows_sync ["Price"; "1h %"] [example_row]),
        snd (rows_sync ["Price"; "1h %"] [example_row])
          ++ map CellError (replicate (3 - 2) IndexError)
          ++ snd (rows_sync ["Price"; "1h %"] [example_row])).
Proof.
  assert (Hidx : 2 < length (cell_elements wide_row)) by (simpl; lia).
  split; [exact Hidx|]. split; [reflexivity|].
  exact (proj1 (proj2 (proj2 (proj2
           (C3_bad_data_cell ["Price"; "1h %"] [example_row] [example_row] wide_row 2
              Hidx eq_refl))))).
Defined.

(** ** Page orchestration and persistence *)

(** What the sequential variant extracts holds texts and nulls only, so
    that every record of it can be bound. *)
Lemma cell_body_bindable (headers : list string) (cells : list Cell) (s : st) (idx : nat) :
  (forall k v, coin_info s !! k = Some v -> bindable v = true) ->
  forall k v, coin_info (cell_body headers cells s idx) !! k = Some v -> bindable v = true.
Proof.
  intros Hs k v. unfold cell_body.
  destruct (headers !! idx) as [h|]; [|apply Hs].
  destruct (idx =? _)%nat.
  - destruct (cells !! idx) as [c|]; [|apply Hs].
    destruct (cell_img c) as [img|]; [|apply Hs]. simpl.
    rewrite lookup_insert. case_decide; [|apply Hs].
    intros [= <-]. unfold img_get_src. now destruct (img_src img).
  - destruct (map cell_text cells !! idx) as [t|]; [|apply Hs].
    destruct (String.eqb t EmptyString); [apply Hs|]. simpl.
    rewrite lookup_insert. case_decide; [|apply Hs]. now intros [= <-].
Qed.

Lemma set_opt_bindable (k : string) (o : option value) (s : st) :
  (forall v, o = Some v -> bindable v = true) ->
  (forall k' v, coin_info s !! k' = Some v -> bindable v = true) ->
  forall k' v, coin_info (set_opt k o s) !! k' = Some v -> bindable v = true.
Proof.
  intros Ho Hs k' v. destruct o as [w|]; simpl; [|apply Hs].
  rewrite lookup_insert. case_decide; [|apply Hs]. intros [= <-]. now apply Ho.
Qed.

Lemma raw_row_sync_bindable (headers : list string) (row : Row) :
  forall k v, coin_info (raw_row_sync headers row) !! k = Some v -> bindable v = true.
Proof.
  unfold raw_row_sync. rewrite cells_of_loop. unfold cell_loop.
  apply (fold_left_inv
           (fun s => forall k v, coin_info s !! k = Some v -> bindable v = true)).
  - unfold lead_sync.
    repeat (apply set_opt_bindable;
            [intros v Hv;
             repeat match type of Hv with
                    | option_map _ ?o = Some _ => destruct o; simpl in Hv
                    end;
             try discriminate; injection Hv as <-;
             try reflexivity; unfold img_get_src;
             match goal with |- context [img_src ?i] => now destruct (img_src i) end|]).
    intros k v. simpl. now rewrite lookup_empty.
  - intros s idx _. apply cell_body_bindable.
Qed.

Lemma normalize_storable (d : gmap string value) :
  (forall k v, d !! k = Some v -> bindable v = true) -> storable (normalize d) = true.
Proof.
  intros Hd. unfold storable. apply forallb_forall. intros f _.
  rewrite normalize_get. unfold dict_get.
  destruct (d !! expected_label f) eqn:Hf; [eapply Hd; eassumption | reflexivity].
Qed.

Lemma rows_sync_storable (headers : list string) (rows : list Row) :
  forallb storable (fst (rows_sync headers rows)) = true.
Proof.
  induction rows as [|row rows IH]; simpl; [reflexivity|].
  destruct (rows_sync headers rows) as [coins log]. simpl in *.
  rewrite forallb_app, IH, andb_true_r. unfold emit.
  destruct (decide (coin_info (raw_row_sync headers row) = ∅)); [reflexivity|].
  simpl. rewrite andb_true_r. apply normalize_storable, raw_row_sync_bindable.
Qed.

Lemma coinmarketcap_sync_storable (fuel : nat) (p : Page) (coins : list coin) :
  coinmarketcap_sync fuel p = Some (Return coins) -> forallb storable coins = true.
Proof.
  unfold coinmarketcap_sync. destruct (goto p); [|discriminate].
  destruct (scroll_loop fuel (heights p) max_count_sync 0 0); [|discriminate].
  intros [= <-]. apply rows_sync_storable.
Qed.

Lemma forallb_take {A : Type} (f : A -> bool) (l : list A) (n : nat) :
  forallb f l = true -> forallb f (take n l) = true.
Proof.
  revert n. induction l as [|a l IH]; intros [|n] H; simpl in *; try reflexivity.
  apply andb_prop in H as [Ha Hl]. now rewrite Ha, IH.
Qed.

Lemma insert_all_fault (k : nat) :
  forall (coins : list coin) (db : connection) (tape : list bool),
    pending db = None ->
    faults (store db) = replicate k false ++ true :: tape ->
    k < length coins ->
    forallb storable (take (S k) coins) = true ->
    insert_all db coins =
      ({| store := {| table := table (store db) ++ take k coins; faults := tape |};
          pending := None |}, Some OperationalError).
Proof.
  induction k as [|k IH]; intros coins db tape Hp Hf Hk Hc;
    destruct coins as [|c coins]; simpl in Hk; try lia; simpl in Hf;
    simpl in Hc; apply andb_prop in Hc as [Hc Hcs].
  - simpl. unfold insert_coin, execute. rewrite Hc, Hf. unfold with_faults.
    rewrite Hp, app_nil_r. reflexivity.
  - simpl. unfold insert_coin, execute. rewrite Hc, Hf.
    rewrite insert_or_replace_coins. unfold commit, with_faults, view. simpl.
    rewrite Hp. rewrite (IH coins _ tape); [|reflexivity|reflexivity|lia|exact Hcs].
    simpl. now rewrite <- app_assoc.
Qed.





(** ** Tasks under [asyncio.gather] *)

Import GlobalDb Batch Asyncio.

Lemma drain_awaits (n : nat) (rest : list step) (db : connection) :
  drain (replicate n Await ++ rest) db = drain rest db.
Proof. induction n as [|n IH]; simpl; [reflexivity | exact IH]. Qed.

Lemma drain_inserts (coins : list coin) :
  forall db, drain (inserts coins) db = insert_all db coins.
Proof.
  induction coins as [|c coins IH]; intros db; simpl; [reflexivity|].
  unfold insert_coin. destruct (execute db c) as [db' [e|]]; [reflexivity | apply IH].
Qed.

(** A task that runs alone does what [process_page] does. *)
Lemma task_alone (fuel : nat) (p : Page) (steps : list step) (db : connection) :
  task fuel p = Some steps -> process_page_async fuel db p = Some (drain steps db).
Proof.
  unfold task, process_page_async, coinmarketcap_async.
  destruct (goto p) as [u|e].
  - destruct (scroll_loop fuel (heights p) max_count_async 0 0) as [calls|];
      [|discriminate].
    intros [= <-]. simpl. rewrite drain_awaits. simpl. now rewrite drain_inserts.
  - intros [= <-]. reflexivity.
Qed.


Section OneInserter.

Variable rows : list coin.
Variable coins : list coin.
Hypothesis Hstorable : forallb storable coins = true.


Lemma inserting_done (db : connection) :
  inserting rows coins [] db ->
  faults (store db) = [] /\ table (store db) = rows ++ coins /\ pending db = None.
Proof.
  intros (Hf & k & Hk & Ht & [(n & Hg & Hp)|(c & _ & Hg & _)]); [|discriminate].
  symmetry in Hg. apply app_eq_nil in Hg as [_ Hins].
  assert (Hdrop : drop k coins = []).
  { destruct (drop k coins); [reflexivity | discriminate]. }
  apply drop_nil_inv in Hdrop. rewrite take_ge in Ht by lia. auto.
Qed.





End OneInserter.










(** C10. Each record is inserted and committed on its own: when the
    storage fails on record [k + 1] of a page, the first [k] records of the
    page are in the committed table, in both variants; and when, in the
    concurrent variant, the extraction ends at a row whose rank is not an
    integer, or a rank too large to be bound ends the inserts, the records of
    the rows before it are.  (In the concurrent variant the records in
    question have ranks within 64 bits; those of the sequential variant
    hold text.) *)
Theorem C10_incremental_persistence
  (fuel : nat) (file : storage) (p : Page) (k : nat) (tape : list bool)
  (Hfaults : faults file = replicate k false ++ true :: tape) :
  (forall db c, faults (store db) = [] -> storable c = true ->
     insert_coin db c =
       ({| store := {| table := view db ++ [c]; faults := [] |}; pending := None |}, None))
  /\ (forall coins, coinmarketcap_sync fuel p = Some (Return coins) -> k < length coins ->
        process_page_sync fuel file p =
          Some ({| table := table file ++ take k coins; faults := tape |},
                Some OperationalError))
  /\ (forall coins, coinmarketcap_async fuel p = Some (Return coins) -> k < length coins ->
        forallb storable (take (S k) coins) = true ->
        process_page_async fuel (connect file) p =
          Some ({| store := {| table := table file ++ take k coins; faults := tape |};
                   pending := None |}, Some OperationalError))
  /\ (forall (q : Page) (before after : list Row) (bad : Row) (db : connection) (n : nat),
        goto q = Return tt ->
        scroll_loop fuel (heights q) max_count_async 0 0 = Some n ->
        tr (content q) = before ++ bad :: after ->
        forallb rank_converts before = true -> rank_converts bad = false ->
        forallb storable (fst (rows_async (th_end (content q)) before)) = true ->
        pending db = None -> faults (store db) = [] ->
        process_page_async fuel db q =
          Some ({| store := {| table := table (store db)
                                 ++ fst (rows_async (th_end (content q)) before);
                               faults := [] |};
                   pending := None |}, None))
  /\ (forall (q : Page) (before after : list coin) (c : coin) (db : connection),
        coinmarketcap_async fuel q = Some (Return (before ++ c :: after)) ->
        forallb storable before = true -> storable c = false ->
        pending db = None -> faults (store db) = [] ->
        process_page_async fuel db q =
          Some ({| store := {| table := table (store db) ++ before; faults := [] |};
                   pending := None |}, Some OverflowError)).
Proof.
  split; [intros db c; apply insert_coin_ok|]. split; [|split; [|split]].
  - intros coins Hscrape Hk. unfold process_page_sync. rewrite Hscrape.
    destruct coins as [|c coins]; [simpl in Hk; lia|].
    rewrite (insert_all_fault k (c :: coins) (connect file) tape); auto.
    apply forallb_take. eapply coinmarketcap_sync_storable. eassumption.
  - intros coins Hscrape Hk Hst. unfold process_page_async. rewrite Hscrape.
    rewrite (insert_all_fault k coins (connect file) tape); auto.
  - intros q before after bad db n Hg Hscroll Hrows Hgood Hbad Hst Hp Hf.
    unfold process_page_async, coinmarketcap_async. rewrite Hg, Hscroll.
    unfold scrape_async. rewrite Hrows, rows_async_app by assumption.
    assert (Hstop : fst (rows_async (th_end (content q)) (bad :: after)) = []).
    { simpl. unfold raw_row_async, lead_async. unfold rank_converts in Hbad.
      destruct (rank_td bad) as [text|]; [|discriminate].
      destruct (py_int text); [discriminate | reflexivity]. }
    cbn [fst]. rewrite Hstop, app_nil_r.
    now rewrite insert_all_ok.
  - intros q before after c db Hscrape Hst Hc Hp Hf.
    unfold process_page_async. rewrite Hscrape.
    now rewrite insert_all_overflow.
Qed.

(** A rank of 2^63 on the second row: the concurrent variant stores the
    first record and leaves with [OverflowError]; the sequential variant,
    which binds the text, stores the three records. *)
Lemma rank_overflow_example :
  (exists db, process_page_async 21 (connect empty_file) (still_page page_huge)
              = Some (db, Some OverflowError)
              /\ table (store db) = take 1 (fst (scrape_async page_huge))
              /\ length (fst (scrape_async page_huge)) = 3)
  /\ (exists file, process_page_sync 11 empty_file (still_page page_huge)
                   = Some (file, None)
                   /\ length (table file) = 3).
Proof.
  split; eexists; (split; [vm_compute; reflexivity|]); [split|]; reflexivity.
Qed.

(** A page of two records on a storage that fails at the second insert. *)
Lemma C10_incremental_persistence_witness :
  let file := {| table := []; faults := [false; true] |} in
  faults file = replicate 1 false ++ true :: []
  /\ coinmarketcap_sync 11 (still_page page_one) = Some (Return (fst (scrape_sync page_one)))
  /\ 1 < length (fst (scrape_sync page_one))
  /\ process_page_sync 11 file (still_page page_one) =
       Some ({| table := [] ++ take 1 (fst (scrape_sync page_one)); faults := [] |},
             Some OperationalError).
Proof.
  cbv zeta.
  assert (Hlen : 1 < length (fst (scrape_sync page_one))) by (vm_compute; lia).
  split; [reflexivity|]. split; [reflexivity|]. split; [exact Hlen|].
  exact (proj1 (proj2 (C10_incremental_persistence 11
                         {| table := []; faults := [false; true] |}
                         (still_page page_one) 1 [] eq_refl))
               (fst (scrape_sync page_one)) eq_refl Hlen).
Defined.

(** * Further properties *)

(** ** Scroll loop *)

(** X1. When the loop leaves, it has made at least [m] rounds, the last [m]
    of them read equal heights, and the round before those, if any, saw the
    height change. *)
Theorem scroll_exit_window (ev : nat -> Z) (m fuel calls : nat)
  (Hexit : scroll_loop fuel ev m 0 0 = Some calls) :
  exists n, calls = (2 * n)%nat /\ m <= n
            /\ (forall i, n - m <= i < n -> stalled ev i = true)
            /\ (m < n -> stalled ev (n - m - 1) = false).
Proof.
  destruct (scroll_loop_exit_count ev m fuel calls Hexit) as (n & Hc & Hhit & Hlow).
  destruct (count_after_run ev n) as [Hle Hrun]. rewrite Hhit in Hle, Hrun.
  exists n. repeat split; try assumption.
  intros Hlt. destruct (stalled ev (n - m - 1)) eqn:Hst; [|reflexivity].
  assert (Hall : forall i, n - m - 1 <= i < n - m - 1 + S m -> stalled ev i = true).
  { intros i Hi. destruct (decide (i = n - m - 1)) as [->|]; [assumption | apply Hrun; lia]. }
  pose proof (count_after_stalls ev (n - m - 1) (S m) Hall) as Hsum.
  replace (n - m - 1 + S m) with n in Hsum by lia. lia.
Qed.

(** The heights of the specification's example, threshold 3. *)
Lemma scroll_exit_window_witness :
  let ev := checks (of_list [100; 150; 150; 150; 150]%Z) in
  scroll_loop 5 ev 3 0 0 = Some 8
  /\ exists n, 8 = (2 * n)%nat /\ 3 <= n
               /\ (forall i, n - 3 <= i < n -> stalled ev i = true)
               /\ (3 < n -> stalled ev (n - 3 - 1) = false).
Proof.
  cbv zeta. split; [reflexivity|].
  exact (scroll_exit_window (checks (of_list [100; 150; 150; 150; 150]%Z)) 3 5 8 eq_refl).
Defined.

(** X2. On a page whose height does not change during the first [m] rounds
    the loop leaves after exactly [m] rounds, [2 * m] heights read. *)
Theorem scroll_still_page (ev : nat -> Z) (m : nat)
  (Hstill : forall i, i < m -> stalled ev i = true) :
  forall fuel, m < fuel -> scroll_loop fuel ev m 0 0 = Some (2 * m)%nat.
Proof.
  intros fuel Hfuel.
  assert (Hm : count_after ev (0 + m) = count_after ev 0 + m).
  { apply count_after_stalls. intros i Hi. apply Hstill. lia. }
  simpl in Hm.
  apply (scroll_loop_exit ev m m fuel 0); [lia | | lia | lia].
  intros k Hk. destruct (count_after_run ev k). lia.
Qed.

(** A page that stays at height 1000, with the threshold of the sequential
    variant. *)
Lemma scroll_still_page_witness :
  (forall i, i < max_count_sync -> stalled (fun _ => 1000%Z) i = true)
  /\ scroll_loop 11 (fun _ => 1000%Z) max_count_sync 0 0 = Some 20.
Proof.
  assert (Hstill : forall i, i < max_count_sync -> stalled (fun _ => 1000%Z) i = true)
    by (intros; reflexivity).
  split; [exact Hstill|].
  exact (scroll_still_page (fun _ => 1000%Z) max_count_sync Hstill 11
           (ltac:(unfold max_count_sync; lia))).
Defined.

(** ** Row extractor *)

Section CellLoopMore.

Variable headers : list string.
Variable cells : list Cell.

Local Abbreviation body := (cell_body headers cells).

(** The cell loop never removes an entry. *)
Lemma cell_body_grows (s : st) (idx : nat) (k : string) :
  is_Some (coin_info s !! k) -> is_Some (coin_info (body s idx) !! k).
Proof.
  intros Hk. unfold cell_body.
  destruct (headers !! idx) as [h|]; [|exact Hk].
  destruct (idx =? _)%nat.
  - destruct (cells !! idx) as [c|]; [|exact Hk].
    destruct (cell_img c); [|exact Hk]. simpl.
    rewrite lookup_insert. case_decide; [eauto | exact Hk].
  - destruct (map cell_text cells !! idx) as [v|]; [|exact Hk].
    destruct (String.eqb v EmptyString); [exact Hk|]. simpl.
    rewrite lookup_insert. case_decide; [eauto | exact Hk].
Qed.

Lemma fold_grows (l : list nat) (k : string) :
  forall s, is_Some (coin_info s !! k) -> is_Some (coin_info (fold_left body l s) !! k).
Proof.
  induction l as [|j l IH]; intros s Hk; simpl; [exact Hk|].
  apply IH, cell_body_grows, Hk.
Qed.

Lemma cell_body_stores (s : st) (idx : nat) :
  stores_at headers cells idx ->
  exists h, headers !! idx = Some h /\ is_Some (coin_info (body s idx) !! h).
Proof.
  intros (h & c & Hh & Hc & Hw). exists h. split; [assumption|].
  unfold cell_body. rewrite Hh, length_map.
  destruct (idx =? length cells - 1)%nat.
  - rewrite Hc. destruct (cell_img c); [|contradiction]. simpl.
    rewrite lookup_insert_eq. eauto.
  - rewrite list_lookup_fmap, Hc. simpl.
    destruct (String.eqb_spec (cell_text c) EmptyString); [contradiction|]. simpl.
    rewrite lookup_insert_eq. eauto.
Qed.

Lemma cell_body_idle (s : st) (idx : nat) :
  idx < length cells -> ~ stores_at headers cells idx -> coin_info (body s idx) = coin_info s.
Proof.
  intros Hidx Hno. unfold cell_body. rewrite length_map.
  destruct (headers !! idx) as [h|] eqn:Hh; [|reflexivity].
  destruct (lookup_lt_is_Some_2 cells idx Hidx) as [c Hc].
  rewrite list_lookup_fmap, Hc. simpl.
  destruct (idx =? length cells - 1)%nat eqn:Hlast.
  - destruct (cell_img c) eqn:Himg; [|reflexivity].
    exfalso. apply Hno. exists h, c. rewrite Hlast, Himg. auto.
  - destruct (String.eqb_spec (cell_text c) EmptyString) as [|Hne]; [reflexivity|].
    exfalso. apply Hno. exists h, c. rewrite Hlast. auto.
Qed.

Lemma cell_loop_empty_iff (s : st) :
  coin_info (cell_loop headers cells s) = ∅
  <-> coin_info s = ∅ /\ forall idx, ~ stores_at headers cells idx.
Proof.
  unfold cell_loop. rewrite length_map. split.
  - intros Hend. split.
    + apply map_empty. intros k.
      destruct (coin_info s !! k) eqn:Hk; [|reflexivity].
      assert (Hs : is_Some (coin_info s !! k)) by eauto.
      apply (fold_grows (seq 0 (length cells)) k) in Hs.
      rewrite Hend, lookup_empty in Hs. now destruct Hs.
    + intros idx Hst.
      assert (Hidx : idx < length cells).
      { destruct Hst as (h & c & _ & Hc & _). eapply lookup_lt_Some; eassumption. }
      revert Hend.
      replace (length cells) with (idx + S (length cells - S idx)) by lia.
      rewrite seq_app, fold_left_app. simpl. intros Hend.
      destruct (cell_body_stores (fold_left body (seq 0 idx) s) idx Hst) as (h & _ & Hs).
      apply (fold_grows (seq (S idx) (length cells - S idx)) h) in Hs.
      rewrite Hend, lookup_empty in Hs. now destruct Hs.
  - intros [Hs Hno].
    apply (fold_left_inv (fun s' => coin_info s' = ∅)); [exact Hs|].
    intros s' idx Hin Hs'. apply in_seq in Hin.
    rewrite cell_body_idle; [assumption | lia | apply Hno].
Qed.

(** The labels beyond the number of cells are not read. *)
Lemma cell_loop_take_headers (s : st) :
  cell_loop (take (length cells) headers) cells s = cell_loop headers cells s.
Proof.
  unfold cell_loop. apply fold_left_ext_in. intros s' idx Hin.
  apply in_seq in Hin. rewrite length_map in Hin.
  unfold cell_body. now rewrite lookup_take_lt by lia.
Qed.

(** Every log entry of the cell loop stands for a cell beyond the headers. *)
Lemma cell_loop_errors (s : st) :
  errors (cell_loop headers cells s)
  = errors s ++ replicate (length cells - length headers) IndexError.
Proof.
  destruct (decide (length headers <= length cells)) as [Hle|Hgt].
  - now rewrite cell_loop_short_headers.
  - replace (length cells - length headers) with 0 by lia. simpl. rewrite app_nil_r.
    unfold cell_loop. apply fold_quiet. intros j Hj. apply in_seq in Hj.
    rewrite length_map in Hj. lia.
Qed.

End CellLoopMore.


Lemma emit_length (d : gmap string value) : length (emit d) <= 1.
Proof. unfold emit. destruct (decide (d = ∅)); simpl; lia. Qed.

Lemma lead_sync_empty_iff (row : Row) :
  coin_info (lead_sync row fresh) = ∅
  <-> rank_td row = None /\ logo_img row = None /\ name_p row = None /\ symbol_p row = None.
Proof.
  unfold lead_sync.
  destruct (rank_td row), (logo_img row), (name_p row), (symbol_p row); simpl;
    (split;
     [intros H; try (now apply insert_non_empty in H); auto
     |intros (H1 & H2 & H3 & H4); try discriminate; reflexivity]).
Qed.

Lemma lead_async_empty_iff (row : Row) (s0 : st) :
  lead_async row fresh = Return s0 ->
  coin_info s0 = ∅
  <-> rank_td row = None /\ logo_img row = None /\ name_p row = None /\ symbol_p row = None.
Proof.
  unfold lead_async. intros Hlead.
  destruct (rank_td row) as [text|]; [destruct (py_int text); [|discriminate]|];
    injection Hlead as <-;
    destruct (logo_img row), (name_p row), (symbol_p row); simpl;
    (split;
     [intros H; try (now apply insert_non_empty in H); auto
     |intros (H1 & H2 & H3 & H4); try discriminate; reflexivity]).
Qed.

Lemma raw_row_empty_iff (headers : list string) (row : Row) :
  let nothing :=
    rank_td row = None /\ logo_img row = None /\ name_p row = None
    /\ symbol_p row = None
    /\ forall idx, ~ stores_at headers (cell_elements row) idx in
  (coin_info (raw_row_sync headers row) = ∅ <-> nothing)
  /\ forall s, raw_row_async headers row = Return s -> (coin_info s = ∅ <-> nothing).
Proof.
  intros nothing. split.
  - unfold raw_row_sync. rewrite cells_of_loop, cell_loop_empty_iff.
    rewrite lead_sync_empty_iff. subst nothing. tauto.
  - intros s Hs. destruct (raw_row_async_inv _ _ _ Hs) as (s0 & Hlead & ->).
    rewrite cells_of_loop, cell_loop_empty_iff.
    rewrite (lead_async_empty_iff row s0 Hlead). subst nothing. tauto.
Qed.



(** X4. Only as many header labels as the row has data cells are read. *)
Theorem headers_beyond_cells_unread (headers : list string) (row : Row) :
  let used := take (length (cell_elements row)) headers in
  raw_row_sync used row = raw_row_sync headers row
  /\ raw_row_async used row = raw_row_async headers row.
Proof.
  intros used.
  assert (Hcells : forall s, cells_of used row s = cells_of headers row s).
  { intros s. rewrite !cells_of_loop. apply cell_loop_take_headers. }
  split.
  - unfold raw_row_sync. apply Hcells.
  - unfold raw_row_async. destruct (lead_async row fresh); [now rewrite Hcells | reflexivity].
Qed.

Lemma raw_row_sync_errors (headers : list string) (row : Row) :
  errors (raw_row_sync headers row)
  = replicate (length (cell_elements row) - length headers) IndexError.
Proof.
  unfold raw_row_sync. rewrite cells_of_loop, cell_loop_errors.
  now rewrite lead_sync_errors.
Qed.

Lemma raw_row_async_errors (headers : list string) (row : Row) (s : st) :
  raw_row_async headers row = Return s ->
  errors s = replicate (length (cell_elements row) - length headers) IndexError.
Proof.
  intros Hs. destruct (raw_row_async_inv _ _ _ Hs) as (s0 & Hlead & ->).
  rewrite cells_of_loop, cell_loop_errors.
  now rewrite (lead_async_errors row s0 Hlead).
Qed.

(** X5. The log of the sequential extraction holds one [IndexError] entry
    for each data cell beyond the number of headers, row after row, and
    nothing else: it is empty when no row is wider than the header row. *)
Theorem sync_log_counts_wide_cells (headers : list string) (rows : list Row) :
  snd (rows_sync headers rows)
  = concat (map (fun row =>
                   replicate (length (cell_elements row) - length headers)
                             (CellError IndexError)) rows)
  /\ (Forall (fun row => length (cell_elements row) <= length headers) rows ->
      snd (rows_sync headers rows) = []).
Proof.
  assert (Hlog : snd (rows_sync headers rows)
    = concat (map (fun row =>
                     replicate (length (cell_elements row) - length headers)
                               (CellError IndexError)) rows)).
  { induction rows as [|row rows IH]; simpl; [reflexivity|].
    destruct (rows_sync headers rows) as [coins log]. simpl in *.
    rewrite raw_row_sync_errors, IH. f_equal.
    induction (length (cell_elements row) - length headers); simpl; congruence. }
  split; [exact Hlog|].
  intros Hnarrow. rewrite Hlog. clear Hlog.
  induction Hnarrow as [|row rows Hrow _ IH]; simpl; [reflexivity|].
  rewrite IH. replace (length (cell_elements row) - length headers) with 0 by lia.
  reflexivity.
Qed.

Lemma py_int_raises (text : string) (e : exn) :
  py_int text = Raise e -> e = ValueError.
Proof.
  unfold py_int.
  destruct (match rstrip (lstrip text) with
            | String "-" s' => option_map Z.opp (parse_digits s' 0 false)
            | String "+" s' => parse_digits s' 0 false
            | _ => parse_digits (rstrip (lstrip text)) 0 false
            end); [|congruence].
  destruct (int_max_str_digits <? digit_count (rstrip (lstrip text)))%nat; congruence.
Qed.

(** X6. In the concurrent variant the first rank cell whose text is not an
    integer ends the page: the records of the rows before it are yielded,
    none after, and the log ends with one page error. *)
Theorem async_stops_at_bad_rank
  (headers : list string) (before after : list Row) (bad : Row)
  (Hgood : forallb rank_converts before = true)
  (Hbad : rank_converts bad = false) :
  rows_async headers (before ++ bad :: after)
  = (fst (rows_async headers before),
     snd (rows_async headers before) ++ [PageError ValueError]).
Proof.
  rewrite rows_async_app by assumption. simpl.
  unfold raw_row_async, lead_async. unfold rank_converts in Hbad.
  destruct (rank_td bad) as [text|]; [|discriminate].
  destruct (py_int text) as [z|e'] eqn:Hint; [discriminate|].
  apply py_int_raises in Hint as ->.
  simpl. now rewrite app_nil_r.
Qed.

(** The page whose first row has the rank text "N/A". *)
Lemma async_stops_at_bad_rank_witness :
  forallb rank_converts [] = true
  /\ rank_converts (ranked_row "N/A" [text_cell "$5"]) = false
  /\ rows_async ["Price"] ([] ++ ranked_row "N/A" [text_cell "$5"] :: tl (tr unranked_soup))
     = (fst (rows_async ["Price"] []),
        snd (rows_async ["Price"] []) ++ [PageError ValueError]).
Proof.
  split; [reflexivity|]. split; [reflexivity|].
  exact (async_stops_at_bad_rank ["Price"] [] (tl (tr unranked_soup))
           (ranked_row "N/A" [text_cell "$5"]) eq_refl eq_refl).
Defined.

(** ** The two variants side by side *)

Section Agreement.

Variable headers : list string.
Variable cells : list Cell.

(** Two states that agree on the log and on every key but "rank". *)
Local Abbreviation alike s1 s2 :=
  (errors s1 = errors s2
   /\ forall k, k <> "rank" -> coin_info s1 !! k = coin_info s2 !! k).

Lemma cell_body_alike (s1 s2 : st) (idx : nat) :
  alike s1 s2 -> alike (cell_body headers cells s1 idx) (cell_body headers cells s2 idx).
Proof.
  intros [He Hk]. unfold cell_body.
  destruct (headers !! idx) as [h|]; [|simpl; split; [now rewrite He | assumption]].
  destruct (idx =? _)%nat.
  - destruct (cells !! idx) as [c|]; [|simpl; split; [now rewrite He | assumption]].
    destruct (cell_img c); [|now split]. simpl. split; [assumption|].
    intros k Hne. rewrite !lookup_insert. case_decide; [reflexivity | now apply Hk].
  - destruct (map cell_text cells !! idx) as [v|];
      [|simpl; split; [now rewrite He | assumption]].
    destruct (String.eqb v EmptyString); [now split|]. simpl. split; [assumption|].
    intros k Hne. rewrite !lookup_insert. case_decide; [reflexivity | now apply Hk].
Qed.

Lemma cell_loop_alike (s1 s2 : st) :
  alike s1 s2 -> alike (cell_loop headers cells s1) (cell_loop headers cells s2).
Proof.
  unfold cell_loop. generalize (seq 0 (length (map cell_text cells))). intros l.
  revert s1 s2. induction l as [|j l IH]; intros s1 s2 H; simpl; [exact H|].
  apply IH, cell_body_alike, H.
Qed.

End Agreement.

Lemma set_opt_alike (k : string) (o : option value) (s1 s2 : st) :
  (errors s1 = errors s2
   /\ forall k', k' <> "rank" -> coin_info s1 !! k' = coin_info s2 !! k') ->
  errors (set_opt k o s1) = errors (set_opt k o s2)
  /\ forall k', k' <> "rank" ->
       coin_info (set_opt k o s1) !! k' = coin_info (set_opt k o s2) !! k'.
Proof.
  intros [He Hk]. destruct o as [v|]; simpl; [|now split]. split; [assumption|].
  intros k' Hne. rewrite !lookup_insert. case_decide; [reflexivity | now apply Hk].
Qed.

Lemma lead_alike (row : Row) (s0 : st) :
  lead_async row fresh = Return s0 ->
  errors s0 = errors (lead_sync row fresh)
  /\ forall k, k <> "rank" -> coin_info s0 !! k = coin_info (lead_sync row fresh) !! k.
Proof.
  unfold lead_async, lead_sync. intros Hlead.
  destruct (rank_td row) as [text|].
  - destruct (py_int text) as [z|]; [|discriminate]. injection Hlead as <-.
    do 3 apply set_opt_alike. simpl. split; [reflexivity|].
    intros k Hne. now rewrite !lookup_insert_ne by congruence.
  - injection Hlead as <-. now split.
Qed.

Lemma raw_rows_alike (headers : list string) (row : Row) (s : st) :
  raw_row_async headers row = Return s ->
  errors s = errors (raw_row_sync headers row)
  /\ forall k, k <> "rank" -> coin_info s !! k = coin_info (raw_row_sync headers row) !! k.
Proof.
  intros Hs. destruct (raw_row_async_inv _ _ _ Hs) as (s0 & Hlead & ->).
  unfold raw_row_sync. rewrite !cells_of_loop.
  apply cell_loop_alike. now apply lead_alike.
Qed.

Lemma normalize_same_but_rank (d1 d2 : gmap string value) :
  (forall k, k <> "rank" -> d1 !! k = d2 !! k) ->
  same_but_rank (normalize d1) (normalize d2).
Proof.
  intros Hk f Hf. rewrite !normalize_get. unfold dict_get.
  rewrite Hk; [reflexivity|]. destruct f; simpl; congruence.
Qed.

Lemma emit_alike (headers : list string) (row : Row) (s : st) :
  raw_row_async headers row = Return s ->
  Forall2 same_but_rank (emit (coin_info s)) (emit (coin_info (raw_row_sync headers row))).
Proof.
  intros Hs.
  destruct (raw_row_empty_iff headers row) as [Hsync Hasync]. specialize (Hasync s Hs).
  destruct (raw_rows_alike headers row s Hs) as [_ Hk].
  unfold emit.
  destruct (decide (coin_info s = ∅)) as [Ha|Ha],
    (decide (coin_info (raw_row_sync headers row) = ∅)) as [Hb|Hb].
  - constructor.
  - apply Hasync, Hsync in Ha. contradiction.
  - apply Hsync, Hasync in Hb. contradiction.
  - repeat constructor. now apply normalize_same_but_rank.
Qed.

(** X7. On a page whose rank cells all hold integer text, the concurrent
    variant yields a record for the same rows as the sequential one, equal
    to it in every field but the rank, and logs the same cell errors. *)
Theorem variants_agree_but_rank (headers : list string) (rows : list Row)
  (Hranks : forallb rank_converts rows = true) :
  Forall2 same_but_rank (fst (rows_async headers rows)) (fst (rows_sync headers rows))
  /\ snd (rows_async headers rows) = snd (rows_sync headers rows).
Proof.
  induction rows as [|row rows IH]; simpl; [split; [constructor | reflexivity]|].
  simpl in Hranks. apply andb_prop in Hranks as [Hrow Hrest].
  destruct (IH Hrest) as [IHc IHl].
  destruct (rank_converts_lead row Hrow) as (s0 & Hlead).
  assert (Hs : raw_row_async headers row = Return (cells_of headers row s0)).
  { unfold raw_row_async. now rewrite Hlead. }
  rewrite Hs.
  destruct (rows_async headers rows) as [ca la], (rows_sync headers rows) as [cs ls].
  simpl in *. split.
  - apply Forall2_app; [now apply emit_alike | assumption].
  - destruct (raw_rows_alike headers row _ Hs) as [He _]. now rewrite He, IHl.
Qed.

(** The two rows of a listing, ranks 1 and 2. *)
Lemma variants_agree_but_rank_witness :
  forallb rank_converts (tr page_one) = true
  /\ Forall2 same_but_rank (fst (rows_async (th_end page_one) (tr page_one)))
                           (fst (rows_sync (th_end page_one) (tr page_one))).
Proof.
  split; [reflexivity|].
  exact (proj1 (variants_agree_but_rank (th_end page_one) (tr page_one) eq_refl)).
Defined.

(** X8. A row yields at most one record, and the concurrent variant never
    yields more records than the sequential one. *)
Theorem record_counts (headers : list string) (rows : list Row) :
  length (fst (rows_async headers rows)) <= length (fst (rows_sync headers rows))
  /\ length (fst (rows_sync headers rows)) <= length rows.
Proof.
  induction rows as [|row rows [IHa IHs]]; simpl; [lia|].
  destruct (rows_sync headers rows) as [cs ls]. simpl in *. split.
  - destruct (raw_row_async headers row) as [s|e] eqn:Hs; [|simpl; lia].
    destruct (rows_async headers rows) as [ca la]. simpl in *.
    rewrite !length_app. pose proof (emit_alike headers row s Hs) as Hlen.
    apply Forall2_length in Hlen. lia.
  - rewrite length_app. pose proof (emit_length (coin_info (raw_row_sync headers row))). lia.
Qed.

(** ** From the cells to the fields *)

(** On distinct header labels, the entry under the label of position [idx]
    after the loop is the one its cell stores, or the one found before. *)
Lemma cell_loop_lookup_distinct
  (headers : list string) (cells : list Cell) (s : st) (idx : nat) (h : string) (c : Cell) :
  NoDup headers -> headers !! idx = Some h -> cells !! idx = Some c ->
  coin_info (cell_loop headers cells s) !! h
  = coin_info (cell_body headers cells s idx) !! h.
Proof.
  intros Hnd Hh Hc.
  assert (Hidx : idx < length cells) by (eapply lookup_lt_Some; eassumption).
  assert (Hother : forall j, j <> idx -> headers !! j <> Some h).
  { intros j Hj Hhj. apply Hj. eapply NoDup_lookup; eassumption. }
  unfold cell_loop. rewrite length_map.
  replace (length cells) with (idx + S (length cells - S idx)) by lia.
  rewrite seq_app, fold_left_app. simpl.
  rewrite fold_other_key by (intros j Hj; apply in_seq in Hj; apply Hother; lia).
  set (s1 := fold_left (cell_body headers cells) (seq 0 idx) s).
  assert (H1 : coin_info s1 !! h = coin_info s !! h).
  { apply fold_other_key. intros j Hj. apply in_seq in Hj. apply Hother. lia. }
  replace (idx + S (length cells - S idx)) with (length cells) by lia.
  unfold cell_body. rewrite Hh, Hc, list_lookup_fmap, Hc. simpl.
  destruct (idx =? _)%nat.
  - destruct (cell_img c); simpl; [now rewrite !lookup_insert_eq | exact H1].
  - destruct (String.eqb (cell_text c) EmptyString); simpl;
      [exact H1 | now rewrite !lookup_insert_eq].
Qed.

Lemma cell_body_value
  (headers : list string) (cells : list Cell) (s : st) (idx : nat) (h : string) (c : Cell) :
  headers !! idx = Some h -> cells !! idx = Some c -> coin_info s !! h = None ->
  dict_get (coin_info (cell_body headers cells s idx)) h = cell_value cells idx c.
Proof.
  intros Hh Hc Hs. unfold dict_get, cell_body, cell_value.
  rewrite Hh, Hc, list_lookup_fmap, Hc, length_map. simpl.
  destruct (idx =? _)%nat.
  - destruct (cell_img c); simpl; [now rewrite lookup_insert_eq | now rewrite Hs].
  - destruct (String.eqb (cell_text c) EmptyString); simpl;
      [now rewrite Hs | now rewrite lookup_insert_eq].
Qed.

Lemma data_field_label (f : field) :
  In f (string_fields ++ [Last7d]) ->
  ~ In (expected_label f) ["rank"; "logo"; "name"; "symbol"].
Proof.
  intros Hf Hk. simpl in Hf, Hk.
  repeat (destruct Hf as [<-|Hf]; [simpl in Hk; intuition discriminate|]).
  exact Hf.
Qed.

(** X9. On a page with distinct header labels, a display field or the
    chart field of a record is read from the data cell at the position of
    its label: its text, null when empty, before the last position; the
    source of its image, null without one, at the last. *)
Theorem field_of_cell
  (headers : list string) (row : Row) (f : field) (idx : nat) (c : Cell)
  (Hdistinct : NoDup headers)
  (Hfield : In f (string_fields ++ [Last7d]))
  (Hlabel : headers !! idx = Some (expected_label f))
  (Hcell : cell_elements row !! idx = Some c) :
  coin_get (normalize (coin_info (raw_row_sync headers row))) f
  = cell_value (cell_elements row) idx c
  /\ forall s, raw_row_async headers row = Return s ->
       coin_get (normalize (coin_info s)) f = cell_value (cell_elements row) idx c.
Proof.
  assert (Hany : forall s0, coin_info s0 !! expected_label f = None ->
            coin_get (normalize (coin_info (cells_of headers row s0))) f
            = cell_value (cell_elements row) idx c).
  { intros s0 H0. rewrite normalize_get, cells_of_loop. unfold dict_get.
    rewrite (cell_loop_lookup_distinct headers _ s0 idx _ c Hdistinct Hlabel Hcell).
    now apply cell_body_value. }
  split.
  - apply Hany, lead_sync_other_key, data_field_label, Hfield.
  - intros s Hs. destruct (raw_row_async_inv _ _ _ Hs) as (s0 & Hlead & ->).
    apply Hany. eapply lead_async_other_key; [eassumption|].
    apply data_field_label, Hfield.
Qed.

(** The price of the second row of a listing. *)
Lemma field_of_cell_witness :
  NoDup (th_end page_one)
  /\ In Price (string_fields ++ [Last7d])
  /\ th_end page_one !! 0 = Some (expected_label Price)
  /\ coin_get (normalize (coin_info (raw_row_sync (th_end page_one)
                 (ranked_row "2" [text_cell "$7"; img_cell EmptyString "b.svg"])))) Price
     = VStr "$7".
Proof.
  assert (Hnd : NoDup (th_end page_one)).
  { simpl. repeat constructor; rewrite ?list_elem_of_In; simpl; intuition discriminate. }
  assert (Hf : In Price (string_fields ++ [Last7d])) by (simpl; auto).
  split; [exact Hnd|]. split; [exact Hf|]. split; [reflexivity|].
  exact (proj1 (field_of_cell (th_end page_one)
                  (ranked_row "2" [text_cell "$7"; img_cell EmptyString "b.svg"])
                  Price 0 (text_cell "$7") Hnd Hf eq_refl eq_refl)).
Defined.

(** X10. A display field or the chart field whose label is not among the
    headers of the page, a renamed column for one, is null in every
    record. *)
Theorem missing_column_is_null (headers : list string) (row : Row) (f : field)
  (Hfield : In f (string_fields ++ [Last7d]))
  (Hmissing : ~ In (expected_label f) headers) :
  coin_get (normalize (coin_info (raw_row_sync headers row))) f = VNone
  /\ forall s, raw_row_async headers row = Return s ->
       coin_get (normalize (coin_info s)) f = VNone.
Proof.
  split.
  - rewrite normalize_get. unfold dict_get, raw_row_sync.
    rewrite cells_of_other_key by assumption.
    now rewrite lead_sync_other_key by (apply data_field_label, Hfield).
  - intros s Hs. destruct (raw_row_async_inv _ _ _ Hs) as (s0 & Hlead & ->).
    rewrite normalize_get. unfold dict_get.
    rewrite cells_of_other_key by assumption.
    now rewrite (lead_async_other_key row s0 _ Hlead) by (apply data_field_label, Hfield).
Qed.

(** A page whose price column is labelled "Cost". *)
Lemma missing_column_is_null_witness :
  In Price (string_fields ++ [Last7d])
  /\ ~ In (expected_label Price) ["Cost"; "Last 7 Days"]
  /\ coin_get (normalize (coin_info (raw_row_sync ["Cost"; "Last 7 Days"]
                 (ranked_row "2" [text_cell "$7"; img_cell EmptyString "b.svg"])))) Price
     = VNone.
Proof.
  assert (Hf : In Price (string_fields ++ [Last7d])) by (simpl; auto).
  assert (Hm : ~ In (expected_label Price) ["Cost"; "Last 7 Days"]).
  { simpl. intros [H|[H|[]]]; discriminate. }
  split; [exact Hf|]. split; [exact Hm|].
  exact (proj1 (missing_column_is_null ["Cost"; "Last 7 Days"]
                  (ranked_row "2" [text_cell "$7"; img_cell EmptyString "b.svg"])
                  Price Hf Hm)).
Defined.

(** X11. On a page with no column labelled "logo", "name" or "symbol", the
    logo, name and symbol of a record are the source of the logo image and
    the texts of the name and symbol elements of the row, null for an
    element that is not there. *)
Theorem lead_fields (headers : list string) (row : Row)
  (Hlabels : forall k, In k ["logo"; "name"; "symbol"] -> ~ In k headers) :
  let expected (c : coin) :=
    logo c = match logo_img row with Some img => img_get_src img | None => VNone end
    /\ name c = match name_p row with Some t => VStr t | None => VNone end
    /\ symbol c = match symbol_p row with Some t => VStr t | None => VNone end in
  expected (normalize (coin_info (raw_row_sync headers row)))
  /\ forall s, raw_row_async headers row = Return s -> expected (normalize (coin_info s)).
Proof.
  intros expected.
  assert (Hl : ~ In "logo" headers) by (apply Hlabels; simpl; auto).
  assert (Hn : ~ In "name" headers) by (apply Hlabels; simpl; auto).
  assert (Hs : ~ In "symbol" headers) by (apply Hlabels; simpl; auto).
  assert (Hany : forall s0 s1,
            s1 = set_opt "symbol" (option_map VStr (symbol_p row))
                   (set_opt "name" (option_map VStr (name_p row))
                      (set_opt "logo" (option_map img_get_src (logo_img row)) s0)) ->
            coin_info s0 !! "logo" = None -> coin_info s0 !! "name" = None ->
            coin_info s0 !! "symbol" = None ->
            expected (normalize (coin_info (cells_of headers row s1)))).
  { intros s0 s1 -> H0l H0n H0s. unfold expected. simpl. unfold dict_get.
    rewrite !cells_of_other_key by assumption.
    destruct (logo_img row), (name_p row), (symbol_p row); simpl;
      rewrite ?lookup_insert_eq, ?lookup_insert_ne by discriminate;
      rewrite ?lookup_insert_eq, ?lookup_insert_ne by discriminate;
      rewrite ?lookup_insert_eq, ?lookup_insert_ne by discriminate;
      rewrite ?H0l, ?H0n, ?H0s; auto. }
  split.
  - unfold raw_row_sync, lead_sync. eapply Hany; [reflexivity| | |];
      destruct (rank_td row); simpl; now rewrite ?lookup_insert_ne by discriminate.
  - intros s Hrow. destruct (raw_row_async_inv _ _ _ Hrow) as (s0 & Hlead & ->).
    unfold lead_async in Hlead.
    destruct (rank_td row) as [text|]; [destruct (py_int text) as [z|]; [|discriminate]|];
      injection Hlead as <-;
      (eapply Hany; [reflexivity| | |]; simpl; now rewrite ?lookup_insert_ne by discriminate).
Qed.

(** A row with the name "Bitcoin" and no logo. *)
Lemma lead_fields_witness :
  let row := {| rank_td := Some "1"; logo_img := None; name_p := Some "Bitcoin";
                symbol_p := Some "BTC"; cell_elements := [text_cell "$5"] |} in
  (forall k, In k ["logo"; "name"; "symbol"] -> ~ In k ["Price"])
  /\ name (normalize (coin_info (raw_row_sync ["Price"] row))) = VStr "Bitcoin".
Proof.
  cbv zeta.
  assert (Hlabels : forall k, In k ["logo"; "name"; "symbol"] -> ~ In k ["Price"]).
  { simpl. intros k Hk [<-|[]]. intuition discriminate. }
  split; [exact Hlabels|].
  exact (proj1 (proj2 (proj1 (lead_fields ["Price"]
           {| rank_td := Some "1"; logo_img := None; name_p := Some "Bitcoin";
              symbol_p := Some "BTC"; cell_elements := [text_cell "$5"] |} Hlabels)))).
Defined.

(** ** Field normaliser *)

Lemma expected_label_inj (f g : field) : expected_label f = expected_label g -> f = g.
Proof. destruct f, g; simpl; intros H; try reflexivity; discriminate H. Qed.

(** X12. The normaliser reads an entry back under the field of its label
    and nowhere else: storing [v] under the label of [f] sets field [f] of
    the record to [v] and leaves the other eleven fields as they were. *)
Theorem normalize_insert_label (raw : gmap string value) (f g : field) (v : value) :
  coin_get (normalize (<[expected_label f := v]> raw)) g
  = if decide (g = f) then v else coin_get (normalize raw) g.
Proof.
  rewrite !normalize_get. unfold dict_get. rewrite lookup_insert.
  destruct (decide (g = f)) as [->|Hne].
  - now rewrite decide_True by reflexivity.
  - rewrite decide_False; [reflexivity|].
    intros Heq. apply Hne. symmetry. now apply expected_label_inj.
Qed.

(** X13. An entry under a label that is not one of the twelve expected
    ones does not reach the record. *)
Theorem normalize_drops_unknown_label (raw : gmap string value) (k : string) (v : value)
  (Hunknown : ~ In k (map expected_label all_fields)) :
  normalize (<[k := v]> raw) = normalize raw.
Proof.
  simpl in Hunknown. unfold normalize, dict_get.
  rewrite !lookup_insert_ne by (intros ->; apply Hunknown; tauto).
  reflexivity.
Qed.

(** A RawRow with an entry under "Price (USD)". *)
Lemma normalize_drops_unknown_label_witness :
  ~ In "Price (USD)" (map expected_label all_fields)
  /\ normalize (<["Price (USD)" := VStr "$5"]> ∅) = normalize ∅.
Proof.
  assert (Hk : ~ In "Price (USD)" (map expected_label all_fields)).
  { simpl. intuition discriminate. }
  split; [exact Hk|].
  exact (normalize_drops_unknown_label ∅ "Price (USD)" (VStr "$5") Hk).
Defined.

(** ** Storage and pipeline *)

Lemma insert_coin_cases (db : connection) (c : coin) :
  pending db = None ->
  exists tape e,
    insert_coin db c
    = ({| store := {| table := table (store db) ++ [c]; faults := tape |};
          pending := None |}, None)
    \/ insert_coin db c
       = ({| store := {| table := table (store db); faults := tape |};
             pending := None |}, Some e).
Proof.
  intros Hp. unfold insert_coin, execute.
  destruct (storable c).
  - destruct (faults (store db)) as [|[|] tape] eqn:Hf.
    + exists [], OperationalError. left. unfold commit, view. simpl. rewrite Hp, Hf.
      now rewrite insert_or_replace_coins.
    + exists tape, OperationalError. right. unfold with_faults. now rewrite Hp.
    + exists tape, OperationalError. left. unfold commit, with_faults, view. simpl.
      rewrite Hp. now rewrite insert_or_replace_coins.
  - exists (faults (store db)), OverflowError. right.
    destruct db as [[t fs] pd]. simpl in *. now subst.
Qed.

Lemma insert_all_prefix (coins : list coin) (db : connection) :
  pending db = None ->
  exists k, k <= length coins
    /\ table (store (fst (insert_all db coins))) = table (store db) ++ take k coins
    /\ pending (fst (insert_all db coins)) = None
    /\ (snd (insert_all db coins) = None -> k = length coins)
    /\ (snd (insert_all db coins) <> None -> k < length coins).
Proof.
  revert db. induction coins as [|c coins IH]; intros db Hclean; simpl.
  - exists 0. simpl. rewrite app_nil_r.
    split; [lia|]. split; [reflexivity|]. split; [assumption|].
    split; [reflexivity | congruence].
  - destruct (insert_coin_cases db c Hclean) as (tape & e & [Hok|Hfail]).
    + rewrite Hok.
      destruct (IH {| store := {| table := table (store db) ++ [c]; faults := tape |};
                      pending := None |} eq_refl) as (k & Hk & Ht & Hp & Hn & Hs).
      exists (S k). simpl in *. rewrite Ht, <- app_assoc.
      split; [lia|]. split; [reflexivity|]. split; [assumption|].
      split; [intros H; now rewrite Hn | intros H; apply Hs in H; lia].
    + rewrite Hfail. exists 0. simpl. rewrite app_nil_r.
      split; [lia|]. split; [reflexivity|]. split; [reflexivity|].
      split; [discriminate | lia].
Qed.

(** X14. Whatever failures the storage has in store, inserting the coins
    of a page leaves every row that was there at its position, unchanged,
    followed by the first [k] coins in order, all committed; [k] is the
    number of coins when no exception leaves, and less when one does. *)
Theorem insert_all_appends (coins : list coin) (db : connection)
  (Hclean : pending db = None) :
  (forall i row, table (store db) !! i = Some row ->
     table (store (fst (insert_all db coins))) !! i = Some row)
  /\ exists k, k <= length coins
       /\ table (store (fst (insert_all db coins))) = table (store db) ++ take k coins
       /\ pending (fst (insert_all db coins)) = None
       /\ (snd (insert_all db coins) = None -> k = length coins)
       /\ (snd (insert_all db coins) <> None -> k < length coins).
Proof.
  destruct (insert_all_prefix coins db Hclean) as (k & Hk & Ht & Hrest).
  split.
  - intros i row Hrow. rewrite Ht. now apply lookup_app_l_Some.
  - exists k. split; [exact Hk|]. split; [exact Ht | exact Hrest].
Qed.

(** Two coins on a storage that fails at the second insert. *)
Lemma insert_all_appends_witness :
  let db := connect {| table := [coin_of 7 "$1"]; faults := [false; true] |} in
  pending db = None
  /\ exists k, k <= 2
       /\ table (store (fst (insert_all db [coin_of 1 "$2"; coin_of 2 "$3"])))
          = [coin_of 7 "$1"] ++ take k [coin_of 1 "$2"; coin_of 2 "$3"].
Proof.
  cbv zeta. split; [reflexivity|].
  destruct (proj2 (insert_all_appends [coin_of 1 "$2"; coin_of 2 "$3"]
              (connect {| table := [coin_of 7 "$1"]; faults := [false; true] |}) eq_refl))
    as (k & Hk & Ht & _).
  exists k. split; [exact Hk | exact Ht].
Defined.

Lemma storage_eta (file : storage) :
  faults file = [] -> file = {| table := table file; faults := [] |}.
Proof. destruct file as [t f]. simpl. now intros ->. Qed.

Lemma process_page_sync_ok (fuel : nat) (file : storage) (p : Page) (n : nat) :
  goto p = Return tt -> faults file = [] ->
  scroll_loop fuel (heights p) max_count_sync 0 0 = Some n ->
  process_page_sync fuel file p
  = Some ({| table := table file ++ fst (scrape_sync (content p)); faults := [] |}, None).
Proof.
  intros Hgoto Hfaults Hscroll.
  unfold process_page_sync, coinmarketcap_sync. rewrite Hgoto, Hscroll.
  destruct (fst (scrape_sync (content p))) as [|c coins] eqn:Hcoins.
  - simpl. rewrite app_nil_r. unfold close, connect. simpl.
    now rewrite <- storage_eta.
  - rewrite insert_all_ok; [reflexivity | exact Hfaults | reflexivity |].
    rewrite <- Hcoins. apply rows_sync_storable.
Qed.

(** X15. A page that loads and comes to rest, scraped on a storage without
    failures, ends with every record of the page appended to the stored
    rows, in the order of the rows of the page; a page without records
    leaves the storage as it was.  This is so in the sequential variant,
    and in the concurrent variant for a page whose ranks are all within
    signed 64 bits; there, a larger rank raises [OverflowError] at its
    insert, after the records before it have been stored. *)
Theorem process_page_stores_all (fuel : nat) (file : storage) (p : Page)
  (Hgoto : goto p = Return tt)
  (Hfaults : faults file = []) :
  (forall n, scroll_loop fuel (heights p) max_count_sync 0 0 = Some n ->
     process_page_sync fuel file p
     = Some ({| table := table file ++ fst (scrape_sync (content p)); faults := [] |},
             None))
  /\ (forall n, scroll_loop fuel (heights p) max_count_async 0 0 = Some n ->
        forallb storable (fst (scrape_async (content p))) = true ->
        process_page_async fuel (connect file) p
        = Some ({| store := {| table := table file ++ fst (scrape_async (content p));
                               faults := [] |};
                   pending := None |}, None))
  /\ (forall n before c after,
        scroll_loop fuel (heights p) max_count_async 0 0 = Some n ->
        fst (scrape_async (content p)) = before ++ c :: after ->
        forallb storable before = true -> storable c = false ->
        process_page_async fuel (connect file) p
        = Some ({| store := {| table := table file ++ before; faults := [] |};
                   pending := None |}, Some OverflowError)).
Proof.
  split; [|split].
  - intros n Hscroll. now apply (process_page_sync_ok fuel file p n).
  - intros n Hscroll Hst.
    unfold process_page_async, coinmarketcap_async. rewrite Hgoto, Hscroll.
    now rewrite insert_all_ok by (simpl; auto).
  - intros n before c after Hscroll Hcoins Hst Hc.
    unfold process_page_async, coinmarketcap_async. rewrite Hgoto, Hscroll, Hcoins.
    now rewrite insert_all_overflow by (simpl; auto).
Qed.

(** A page of two records that never moves. *)
Lemma process_page_stores_all_witness :
  goto (still_page page_one) = Return tt
  /\ faults empty_file = []
  /\ scroll_loop 11 (heights (still_page page_one)) max_count_sync 0 0 = Some 20
  /\ process_page_sync 11 empty_file (still_page page_one)
     = Some ({| table := table empty_file ++ fst (scrape_sync (content (still_page page_one)));
                faults := [] |}, None).
Proof.
  split; [reflexivity|]. split; [reflexivity|]. split; [reflexivity|].
  exact (proj1 (process_page_stores_all 11 empty_file (still_page page_one) eq_refl eq_refl)
               20 eq_refl).
Defined.

Lemma page_loop_ok (fuel : nat) (urls : list Page) :
  forall file : storage,
    Forall (fun p => goto p = Return tt
              /\ exists n, scroll_loop fuel (heights p) max_count_sync 0 0 = Some n) urls ->
    faults file = [] ->
    page_loop fuel file urls
    = Some ({| table := table file
                 ++ concat (map (fun p => fst (scrape_sync (content p))) urls);
               faults := [] |}, None).
Proof.
  induction urls as [|p urls IH]; intros file Hpages Hfaults; simpl.
  - rewrite app_nil_r. now rewrite <- storage_eta.
  - apply Forall_cons in Hpages as [[Hgoto [n Hscroll]] Hrest].
    rewrite (process_page_sync_ok fuel file p n Hgoto Hfaults Hscroll).
    rewrite IH by (assumption || reflexivity). simpl. now rewrite <- app_assoc.
Qed.

(** X16. When every page loads and comes to rest and the storage does not
    fail, the sequential run ends without exception and the table holds
    the rows it had followed by the records of all the pages, page after
    page. *)
Theorem page_loop_stores_all (fuel : nat) (urls : list Page) (file : storage)
  (Hpages : Forall (fun p => goto p = Return tt
               /\ exists n, scroll_loop fuel (heights p) max_count_sync 0 0 = Some n) urls)
  (Hfaults : faults file = []) :
  main_sync fuel file urls
  = Some ({| table := table file
               ++ concat (map (fun p => fst (scrape_sync (content p))) urls);
             faults := [] |}, None)
  /\ forall p, In p urls ->
       incl (fst (scrape_sync (content p)))
            (match main_sync fuel file urls with
             | Some (file', _) => table file'
             | None => []
             end).
Proof.
  assert (Hrun : main_sync fuel file urls
    = Some ({| table := table file
                 ++ concat (map (fun p => fst (scrape_sync (content p))) urls);
               faults := [] |}, None)).
  { unfold main_sync, create_db. now apply page_loop_ok. }
  split; [exact Hrun|].
  intros p Hp c Hc. rewrite Hrun. simpl. apply in_or_app. right.
  apply in_concat. exists (fst (scrape_sync (content p))). split; [|exact Hc].
  apply in_map_iff. now exists p.
Qed.

(** The two pages of the run, both at rest. *)
Lemma page_loop_stores_all_witness :
  Forall (fun p => goto p = Return tt
            /\ exists n, scroll_loop 11 (heights p) max_count_sync 0 0 = Some n)
         [still_page page_one; still_page page_two]
  /\ faults empty_file = []
  /\ main_sync 11 empty_file [still_page page_one; still_page page_two]
     = Some ({| table := table empty_file
                  ++ concat (map (fun p => fst (scrape_sync (content p)))
                                 [still_page page_one; still_page page_two]);
                faults := [] |}, None).
Proof.
  assert (Hpages : Forall (fun p => goto p = Return tt
            /\ exists n, scroll_loop 11 (heights p) max_count_sync 0 0 = Some n)
         [still_page page_one; still_page page_two]).
  { repeat constructor; exists 20; reflexivity. }
  split; [exact Hpages|]. split; [reflexivity|].
  exact (proj1 (page_loop_stores_all 11 [still_page page_one; still_page page_two]
                  empty_file Hpages eq_refl)).
Defined.

(** X17. The table is a log, not a snapshot: a second run over the same
    pages appends all their records once more. *)
Theorem second_run_appends_again (fuel : nat) (urls : list Page) (file : storage)
  (Hpages : Forall (fun p => goto p = Return tt
               /\ exists n, scroll_loop fuel (heights p) max_count_sync 0 0 = Some n) urls)
  (Hfaults : faults file = []) :
  let records := concat (map (fun p => fst (scrape_sync (content p))) urls) in
  exists file1,
    main_sync fuel file urls = Some (file1, None)
    /\ main_sync fuel file1 urls
       = Some ({| table := table file ++ records ++ records; faults := [] |}, None).
Proof.
  intros records. unfold main_sync, create_db.
  eexists. split; [now apply page_loop_ok|].
  rewrite page_loop_ok by (assumption || reflexivity).
  simpl. now rewrite <- app_assoc.
Qed.

(** Two runs over the first page. *)
Lemma second_run_appends_again_witness :
  Forall (fun p => goto p = Return tt
            /\ exists n, scroll_loop 11 (heights p) max_count_sync 0 0 = Some n)
         [still_page page_one]
  /\ faults empty_file = []
  /\ exists file1,
       main_sync 11 empty_file [still_page page_one] = Some (file1, None)
       /\ length (table file1) = 2.
Proof.
  assert (Hpages : Forall (fun p => goto p = Return tt
            /\ exists n, scroll_loop 11 (heights p) max_count_sync 0 0 = Some n)
         [still_page page_one]).
  { repeat constructor; exists 20; reflexivity. }
  split; [exact Hpages|]. split; [reflexivity|].
  destruct (second_run_appends_again 11 [still_page page_one] empty_file Hpages eq_refl)
    as (file1 & Hrun & _).
  exists file1. split; [exact Hrun|].
  vm_compute in Hrun. injection Hrun as <-. reflexivity.
Defined.

Lemma moving_window_wider (ev : nat -> Z) (m m' : nat) :
  m <= m' ->
  (forall a, exists i, a <= i < a + m /\ stalled ev i = false) ->
  forall a, exists i, a <= i < a + m' /\ stalled ev i = false.
Proof.
  intros Hle Hmove a. destruct (Hmove a) as (i & Hi & Hst).
  exists i. split; [lia | exact Hst].
Qed.

(** X18. A page that loads but never rests for ten rounds in a row keeps
    its task in the scroll loop for ever: neither [process_page] nor the
    sequential page loop from that page on returns, whatever the pages
    after it. *)
Theorem restless_page_blocks (p : Page) (after : list Page)
  (Hgoto : goto p = Return tt)
  (Hmove : forall a, exists i,
             a <= i < a + max_count_sync /\ stalled (heights p) i = false) :
  forall fuel file,
    process_page_sync fuel file p = None
    /\ process_page_async fuel (connect file) p = None
    /\ page_loop fuel file (p :: after) = None.
Proof.
  intros fuel file.
  assert (Hs : process_page_sync fuel file p = None).
  { unfold process_page_sync, coinmarketcap_sync. rewrite Hgoto.
    now rewrite scroll_loop_never. }
  split; [exact Hs|]. split.
  - unfold process_page_async, coinmarketcap_async. rewrite Hgoto.
    rewrite scroll_loop_never; [reflexivity|].
    apply (moving_window_wider _ max_count_sync); [unfold max_count_sync, max_count_async; lia|].
    exact Hmove.
  - simpl. now rewrite Hs.
Qed.

(** A page that is higher at every reading, before a page at rest. *)
Lemma restless_page_blocks_witness :
  goto (growing_page page_one) = Return tt
  /\ (forall a, exists i, a <= i < a + max_count_sync
                          /\ stalled (heights (growing_page page_one)) i = false)
  /\ page_loop 1000 empty_file [growing_page page_one; still_page page_two] = None.
Proof.
  assert (Hmove : forall a, exists i, a <= i < a + max_count_sync
                    /\ stalled (heights (growing_page page_one)) i = false).
  { intros a. exists a. split; [unfold max_count_sync; lia|].
    unfold stalled. simpl heights. apply Z.eqb_neq. lia. }
  split; [reflexivity|]. split; [exact Hmove|].
  exact (proj2 (proj2 (restless_page_blocks (growing_page page_one) [still_page page_two]
                         eq_refl Hmove 1000 empty_file))).
Defined.

(** ** The global connection *)

Import GlobalDb.

(** X19. [open_db] connects only when no connection is open, and hands out
    the open one otherwise; [close_db] closes and clears it, so that a
    second [close_db] changes nothing.  Opened on a closed state, used to
    insert the coins of a page and closed, the connection leaves in the
    file the rows that were there followed by the coins inserted. *)
Theorem global_connection (g : state) (coins : list coin)
  (Hclosed : db g = None) :
  let '(c, g1) := open_db g in
  open_db g1 = (c, g1)
  /\ db (close_db g1) = None
  /\ close_db (close_db g1) = close_db g1
  /\ close_db g1 = g
  /\ exists k, k <= length coins
       /\ table (db_file (close_db {| db_file := db_file g1;
                                      db := Some (fst (insert_all c coins)) |}))
          = table (db_file g) ++ take k coins
       /\ (snd (insert_all c coins) = None -> k = length coins).
Proof.
  unfold open_db. rewrite Hclosed. simpl.
  split; [reflexivity|]. split; [reflexivity|]. split; [reflexivity|].
  split; [destruct g; simpl in *; now subst|].
  destruct (insert_all_prefix coins (connect (db_file g)) eq_refl)
    as (k & Hk & Ht & _ & Hn & _).
  exists k. split; [exact Hk|]. split; [exact Ht | exact Hn].
Qed.

(** The state at start-up, and the two records of a page. *)
Lemma global_connection_witness :
  let g := {| db_file := empty_file; db := None |} in
  db g = None
  /\ open_db (snd (open_db g)) = open_db g
  /\ close_db (snd (open_db g)) = g.
Proof.
  cbv zeta. split; [reflexivity|].
  pose proof (global_connection {| db_file := empty_file; db := None |}
                (fst (scrape_async page_one)) eq_refl) as H.
  simpl in H. destruct H as (H1 & _ & _ & H4 & _).
  split; [exact H1 | exact H4].
Defined.

(** ** Batches *)

Import Batch.

Lemma enumerate_length {A : Type} (l : list A) : length (enumerate l) = length l.
Proof. unfold enumerate. rewrite length_combine, length_seq. lia. Qed.

Lemma batches_concat {A : Type} (c : nat) :
  forall (off : nat) (urls : list A), length urls <= 2 * c ->
    concat (map (fun k => map (fun '(j, url) => (off + (2 * k + j), url))
                              (enumerate (take 2 (drop (2 * k) urls))))
                (seq 0 c))
    = combine (seq off (length urls)) urls.
Proof.
  induction c as [|c IH]; intros off urls Hlen.
  - destruct urls; [reflexivity | simpl in Hlen; lia].
  - rewrite <- cons_seq, <- seq_shift, map_cons, map_map, concat_cons.
    rewrite (map_ext _
               (fun k => map (fun '(j, url) => (off + 2 + (2 * k + j), url))
                             (enumerate (take 2 (drop (2 * k) (drop 2 urls)))))).
    + rewrite IH by (rewrite length_drop; lia).
      destruct urls as [|a [|b rest]]; simpl; rewrite ?Nat.add_0_r; [reflexivity..|].
      replace (off + 1) with (S off) by lia.
      replace (off + 2) with (S (S off)) by lia. reflexivity.
    + intros k. rewrite drop_drop. replace (2 + 2 * k) with (2 * S k) by lia.
      apply map_ext. intros [j url]. f_equal. lia.
Qed.

(** X20. The batches of the concurrent [main] cut the list of URLs, in
    order, into groups of two with a last group of one when their number is
    odd; taken together their tasks are the URLs numbered from 0. *)
Theorem batch_tasks_cover {A : Type} (urls : list A) :
  concat (batch_tasks urls) = enumerate urls
  /\ length (batch_tasks urls) = Nat.div2 (S (length urls))
  /\ Forall (fun batch => 1 <= length batch <= 2) (batch_tasks urls).
Proof.
  unfold batch_tasks, range_by_two. rewrite map_map.
  assert (Hhalf : length urls <= 2 * Nat.div2 (S (length urls))
                  /\ 2 * Nat.div2 (S (length urls)) <= S (length urls)).
  { pose proof (Nat.div2_odd (S (length urls))) as H.
    destruct (Nat.odd (S (length urls))); unfold Nat.b2n in H; lia. }
  split; [|split].
  - apply (batches_concat (Nat.div2 (S (length urls))) 0 urls). lia.
  - now rewrite length_map, length_seq.
  - apply Forall_forall. intros batch Hin. apply list_elem_of_In, in_map_iff in Hin.
    destruct Hin as (k & <- & Hk). apply in_seq in Hk.
    rewrite length_map, enumerate_length, length_take, length_drop. lia.
Qed.
